(** * gosuv: the supervisor registry of [web.go]

    A shallow embedding of the [Supervisor] type of [web.go] (the registry
    of programs, its reconciliation against the persisted configuration,
    [stopAndWait], [loadDB] and [saveDB], [Close], the handlers that add,
    start and stop a program, start-up and signals) and the properties of
    it that the specification states or that the code shows.

    The supervisor is a mutable Go object: it is modelled by explicit
    state passing over a [World], in a small monad whose outcomes are a
    normal return, a goroutine blocked for ever, and a Go panic. *)

From Stdlib Require Import ZArith Lia DecimalString.
From stdpp Require Import base option strings list gmap.

Open Scope string_scope.
Open Scope list_scope.

#[local] Set Warnings "-clear-no-such-hyp".

(** ** Programs *)

(** The fields of [Program] that [web.go] reads and writes ([hAddProgram]);
    the type declaration itself is in another file of the repository. *)
Record Program := mkProgram {
  Name : string;
  Command : string;
  Dir : string;
  StartAuto : bool;
  StartRetries : Z;
}.

(** [reflect.DeepEqual] on two [Program] values is field-wise equality. *)
#[global] Instance Program_eq_dec : EqDecision Program.
Proof. solve_decision. Defined.

(** The zero value of [Program], which a Go map yields for a missing key. *)
Definition zeroProgram : Program := mkProgram "" "" "" false 0.

(** A Go [error]: [None] is [nil]. *)
Definition error : Type := option string.

(** Modelled from the spec: [Program.Check], which is declared outside
    [web.go].  "name and command non-empty, [...] retries >= 0"; the
    default of the working directory is applied by the caller
    ([hAddProgram]), [Check] only reports. *)
Definition Check (pg : Program) : error :=
  if decide (Name pg = "") then Some "Program name empty"
  else if decide (Command pg = "") then Some "Program command empty"
  else if (StartRetries pg <? 0)%Z then Some "Program retries negative"
  else None.

(** ** Process controllers *)

(** Modelled from the spec: the states of the lifecycle machine, which is
    declared outside [web.go]. *)
Inductive FSMState := Stopped | Starting | Running | Stopping | Backoff | Fatal.

Inductive FSMEvent := StartEvent | StopEvent.

#[global] Instance FSMState_eq_dec : EqDecision FSMState.
Proof. solve_decision. Defined.

#[global] Instance FSMEvent_eq_dec : EqDecision FSMEvent.
Proof. solve_decision. Defined.

(** What can make a controller move: an event given to [Operate], or a
    condition of the supervised OS process. *)
Inductive Trigger :=
| OnEvent (e : FSMEvent)
| SpawnSucceeded
| SpawnFailed
| ExitedUnexpectedly
| Terminated
| RetryElapsed.

(** [string(state)], as it appears in the broadcast events. *)
Definition stateName (st : FSMState) : string :=
  match st with
  | Stopped => "Stopped"
  | Starting => "Starting"
  | Running => "Running"
  | Stopping => "Stopping"
  | Backoff => "Backoff"
  | Fatal => "Fatal"
  end.

(** A [Process] embeds its [Program] ([p.Name] is the program's name). *)
Record Process := mkProcess {
  program : Program;
  state : FSMState;
  retries : Z;
}.

#[global] Instance Process_eq_dec : EqDecision Process.
Proof. solve_decision. Defined.

(** Modelled from the spec: [NewProcess], "a new ProcessController in the
    Stopped state". *)
Definition NewProcess (pg : Program) : Process := mkProcess pg Stopped 0.

(** Modelled from the spec: "[IsRunning()] is true exactly in
    [{Starting, Running}]". *)
Definition IsRunning (p : Process) : bool :=
  match state p with
  | Starting | Running => true
  | _ => false
  end.

(** A controller on its way down, or down. *)
Definition halted (p : Process) : Prop := state p = Stopping \/ state p = Stopped.

(** After a failed spawn or an unexpected exit: "increment retry counter;
    Fatal if counter > startRetries". *)
Definition afterFailure (p : Process) : Process :=
  let n := (retries p + 1)%Z in
  mkProcess (program p) (if (StartRetries (program p) <? n)%Z then Fatal else Backoff) n.

(** Modelled from the spec: the transition table of section 4.2.  [None]
    when the state has no entry for the trigger ("no event is accepted
    from a state lacking a table entry for it"). *)
Definition fsmStep (p : Process) (t : Trigger) : option Process :=
  match state p, t with
  | Stopped, OnEvent StartEvent => Some (mkProcess (program p) Starting 0)
  | Starting, SpawnSucceeded => Some (mkProcess (program p) Running (retries p))
  | Starting, SpawnFailed => Some (afterFailure p)
  | Running, OnEvent StopEvent => Some (mkProcess (program p) Stopping (retries p))
  | Running, ExitedUnexpectedly => Some (afterFailure p)
  | Stopping, Terminated => Some (mkProcess (program p) Stopped (retries p))
  | Backoff, RetryElapsed => Some (mkProcess (program p) Starting (retries p))
  | Fatal, OnEvent StartEvent => Some (mkProcess (program p) Starting 0)
  | _, _ => None
  end.

(** ** The world *)

(** A [*Process] is an index into the heap of controllers. *)
Definition loc : Type := nat.

(** What the supervisor does that others can observe, oldest first. *)
Inductive Effect :=
| Broadcast (msg : string)              (* s.eventB.Write *)
| Listening                             (* s.addStatusChangeListener *)
| Operated (p : loc) (e : FSMEvent).    (* p.Operate(e) *)

#[global] Instance Effect_eq_dec : EqDecision Effect.
Proof. solve_decision. Defined.

(** The closure of the goroutine that [addOrUpdateProgram] starts: the
    variables [origProc], [pg] and [isRunning] it captures. *)
Record Task := mkTask {
  origProc : loc;
  taskPg : Program;
  isRunning : bool;
}.

(** What happens to the controllers between two wake-ups of a waiting
    goroutine: triggers reaching controllers, in order. *)
Definition Wakeup : Type := list (loc * Trigger).

Section Supervisor.

(** [yaml.Marshal] and [yaml.Unmarshal] belong to a library: the contents
    of the configuration file are kept abstract. *)
Context {Data : Type}.
Variable emptyData : Data.                               (* []byte("") *)
Variable yamlUnmarshal : Data -> string + list Program.
Variable yamlMarshal : list Program -> string + Data.

(** The file [programs.yml]: [ioutil.ReadFile] fails when there is no
    content to read, [ioutil.WriteFile] fails when it is not writable. *)
Record Disk := mkDisk {
  content : option Data;
  writable : bool;
}.

(** The fields of [Supervisor] ([names], [pgMap], [procMap], [mu]; the
    broadcaster [eventB] is the [Broadcast] effects of [trace]), the heap
    its pointers lead to, and the environment. *)
Record World := mkWorld {
  names : list string;
  pgMap : gmap string Program;
  procMap : gmap string loc;
  mu : bool;                          (* is the mutex locked *)
  heap : list Process;
  trace : list Effect;
  goroutines : list Task;             (* started, not yet run *)
  disk : Disk;
  sched : list Wakeup;                (* the wake-ups still to come *)
}.

Definition set_names (v : list string) (w : World) : World :=
  mkWorld v (pgMap w) (procMap w) (mu w) (heap w) (trace w) (goroutines w) (disk w) (sched w).
Definition set_pgMap (v : gmap string Program) (w : World) : World :=
  mkWorld (names w) v (procMap w) (mu w) (heap w) (trace w) (goroutines w) (disk w) (sched w).
Definition set_procMap (v : gmap string loc) (w : World) : World :=
  mkWorld (names w) (pgMap w) v (mu w) (heap w) (trace w) (goroutines w) (disk w) (sched w).
Definition set_mu (v : bool) (w : World) : World :=
  mkWorld (names w) (pgMap w) (procMap w) v (heap w) (trace w) (goroutines w) (disk w) (sched w).
Definition set_heap (v : list Process) (w : World) : World :=
  mkWorld (names w) (pgMap w) (procMap w) (mu w) v (trace w) (goroutines w) (disk w) (sched w).
Definition set_trace (v : list Effect) (w : World) : World :=
  mkWorld (names w) (pgMap w) (procMap w) (mu w) (heap w) v (goroutines w) (disk w) (sched w).
Definition set_goroutines (v : list Task) (w : World) : World :=
  mkWorld (names w) (pgMap w) (procMap w) (mu w) (heap w) (trace w) v (disk w) (sched w).
Definition set_disk (v : Disk) (w : World) : World :=
  mkWorld (names w) (pgMap w) (procMap w) (mu w) (heap w) (trace w) (goroutines w) v (sched w).
Definition set_sched (v : list Wakeup) (w : World) : World :=
  mkWorld (names w) (pgMap w) (procMap w) (mu w) (heap w) (trace w) (goroutines w) (disk w) v.

(** The registry proper: the name sequence and the two maps. *)
Definition registry (w : World) : list string * gmap string Program * gmap string loc :=
  (names w, pgMap w, procMap w).

(** The events written to [eventB], oldest first. *)
Definition eventB (w : World) : list string :=
  omap (fun e => match e with Broadcast m => Some m | _ => None end) (trace w).

(** The events given to controllers through [Operate], oldest first. *)
Definition operated (w : World) : list (loc * FSMEvent) :=
  omap (fun e => match e with Operated l ev => Some (l, ev) | _ => None end) (trace w).

(** ** The monad *)

Inductive Outcome (A : Type) :=
| Done (a : A) (w : World)       (* the call returned [a] *)
| Blocked (w : World)            (* the call never returns *)
| Panicked (w : World).          (* nil pointer dereference *)

Arguments Done {A} a w.
Arguments Blocked {A} w.
Arguments Panicked {A} w.

Definition M (A : Type) : Type := World -> Outcome A.

Definition ret {A} (a : A) : M A := fun w => Done a w.

Definition bind {A B} (m : M A) (k : A -> M B) : M B :=
  fun w =>
    match m w with
    | Done a w' => k a w'
    | Blocked w' => Blocked w'
    | Panicked w' => Panicked w'
    end.

Definition modify (f : World -> World) : M unit := fun w => Done tt (f w).
Definition gets {A} (f : World -> A) : M A := fun w => Done (f w) w.
Definition panic {A} : M A := fun w => Panicked w.

(** The world an outcome leaves behind. *)
Definition finalWorld {A} (o : Outcome A) : World :=
  match o with Done _ w | Blocked w | Panicked w => w end.

Notation "x <- m ;; k" := (bind m (fun x => k))
  (at level 100, m at next level, right associativity).
Notation "m ;;; k" := (bind m (fun _ => k))
  (at level 100, right associativity).

(** ** Broadcasting and controllers *)

(** [broadcastEvent]: one more write to [eventB]. *)
Definition broadcastEvent (event : string) : M unit :=
  modify (fun w => set_trace (trace w ++ [Broadcast event]) w).

(** [addStatusChangeListener]: one more channel listening to [eventB]. *)
Definition addStatusChangeListener : M unit :=
  modify (fun w => set_trace (trace w ++ [Listening]) w).

(** The text that the [StateChange] hook installed by [newProcess]
    broadcasts. *)
Definition stateChangeEvent (name : string) (oldState newState : FSMState) : string :=
  name +:+ " state: " +:+ stateName oldState +:+ " -> " +:+ stateName newState.

(** A trigger reaches the controller at [l]: when the table has an entry
    the controller moves and its [StateChange] hook broadcasts the
    transition; otherwise nothing happens. *)
Definition deliver (l : loc) (t : Trigger) (w : World) : World :=
  match heap w !! l with
  | None => w
  | Some p =>
      match fsmStep p t with
      | None => w
      | Some p' =>
          set_trace (trace w ++ [Broadcast (stateChangeEvent (Name (program p)) (state p) (state p'))])
            (set_heap (<[l := p']> (heap w)) w)
      end
  end.

(** [newProcess]: a fresh controller for [pg], whose hook broadcasts. *)
Definition newProcess (pg : Program) : M loc :=
  fun w => Done (length (heap w)) (set_heap (heap w ++ [NewProcess pg]) w).

(** [p.Operate(e)], by the supervisor. *)
Definition Operate (e : FSMEvent) (l : loc) : M unit :=
  fun w =>
    match heap w !! l with
    | None => Panicked w
    | Some _ => Done tt (deliver l (OnEvent e) (set_trace (trace w ++ [Operated l e]) w))
    end.

(** One step of the environment: an OS condition, or an [Operate] by
    another goroutine (an HTTP handler). *)
Definition envStep (w : World) (s : loc * Trigger) : World :=
  match s.2, heap w !! s.1 with
  | OnEvent e, Some _ => deliver s.1 s.2 (set_trace (trace w ++ [Operated s.1 e]) w)
  | _, _ => deliver s.1 s.2 w
  end.

(** Following a [*Process]: a nil or dangling pointer panics. *)
Definition deref (ptr : option loc) : M (loc * Process) :=
  fun w =>
    match ptr ≫= fun l => (fun p => (l, p)) <$> heap w !! l with
    | None => Panicked w
    | Some lp => Done lp w
    end.

(** ** [stopAndWait] *)

(** The [for { select { ... } }] loop: each wake-up (an event on [c], or
    the one-second timer) comes after the environment has moved, and
    returns once the controller is not running.  With no wake-up left the
    goroutine stays blocked. *)
Fixpoint waitLoop (l : loc) (wakeups : list Wakeup) (w : World) : Outcome error :=
  match wakeups with
  | [] => Blocked (set_sched [] w)
  | k :: rest =>
      let w' := foldl envStep w k in
      match heap w' !! l with
      | None => Panicked (set_sched rest w')
      | Some p =>
          if IsRunning p then waitLoop l rest w'
          else Done None (set_sched rest w')
      end
  end.

Definition stopAndWait (name : string) : M error :=
  fun w =>
    match procMap w !! name with
    | None => Done (Some "No such program") w
    | Some l =>
        match heap w !! l with
        | None => Panicked w
        | Some p =>
            if negb (IsRunning p) then Done None w
            else
              (addStatusChangeListener ;;;
               Operate StopEvent l ;;;
               fun w1 => waitLoop l (sched w1) w1) w
        end
    end.

(** ** [addOrUpdateProgram] *)

(** [go func() { ... }()]: the closure is recorded as started.  Go may
    run it at any moment from here on, also while its caller is still at
    work; the model runs it where [runGoroutine] or [runGoroutines] is
    written, which is after the caller has returned.  What is proved of a
    caller is therefore about the caller's own steps, and what is proved
    of a goroutine is stated from the world in which it happens to run. *)
Definition go (t : Task) : M unit :=
  modify (fun w => set_goroutines (goroutines w ++ [t]) w).

Definition addOrUpdateProgram (pg : Program) : M error :=
  match Check pg with
  | Some err => ret (Some err)
  | None =>
      origPg <- gets (fun w => pgMap w !! Name pg) ;;
      match origPg with
      | Some origPg =>
          if decide (origPg = pg) then ret None
          else
            broadcastEvent (Name pg +:+ " update") ;;;
            origProc <- gets (fun w => procMap w !! Name pg) ;;
            p <- deref origProc ;;
            let isRunning := IsRunning p.2 in
            go (mkTask p.1 pg isRunning) ;;;
            ret None
      | None =>
          modify (fun w => set_names (names w ++ [Name pg]) w) ;;;
          modify (fun w => set_pgMap (<[Name pg := pg]> (pgMap w)) w) ;;;
          l <- newProcess pg ;;
          modify (fun w => set_procMap (<[Name pg := l]> (procMap w)) w) ;;;
          broadcastEvent (Name pg +:+ " added") ;;;
          ret None
      end
  end.

(** The body of the goroutine of [addOrUpdateProgram]. *)
Definition updateBody (t : Task) : M unit :=
  op <- gets (fun w => heap w !! origProc t) ;;
  match op with
  | None => panic
  | Some p =>
      stopAndWait (Name (program p)) ;;;
      newProc <- newProcess (taskPg t) ;;
      modify (fun w => set_procMap (<[Name (taskPg t) := newProc]> (procMap w)) w) ;;;
      modify (fun w => set_pgMap (<[Name (taskPg t) := taskPg t]> (pgMap w)) w) ;;;
      if isRunning t then Operate StartEvent newProc else ret tt
  end.

(** The Go scheduler runs the goroutine that was started first. *)
Definition runGoroutine : M unit :=
  fun w =>
    match goroutines w with
    | [] => Done tt w
    | t :: rest => updateBody t (set_goroutines rest w)
    end.

(** The goroutines that were started run one after the other, in the
    order in which they were started. *)
Fixpoint runTasks (ts : list Task) : M unit :=
  match ts with
  | [] => ret tt
  | t :: rest => updateBody t ;;; runTasks rest
  end.

Definition runGoroutines : M unit :=
  ts <- gets goroutines ;;
  modify (set_goroutines []) ;;;
  runTasks ts.

(** ** The mutex *)

(** [s.mu.Lock()]: waits while the mutex is locked. *)
Definition Lock : M unit :=
  fun w => if mu w then Blocked w else Done tt (set_mu true w).

Definition Unlock : M unit := modify (set_mu false).

(** [defer d]: [d] runs when the body returns, and when it panics. *)
Definition defer {A} (d : M unit) (body : M A) : M A :=
  fun w =>
    match body w with
    | Done a w' => (d ;;; ret a) w'
    | Blocked w' => Blocked w'
    | Panicked w' => (d ;;; panic) w'
    end.

(** ** [readConfigFromDB] and [loadDB] *)

Definition ReadFile : M (option Data) := gets (fun w => content (disk w)).

Definition WriteFile (data : Data) : M error :=
  fun w =>
    if writable (disk w) then Done None (set_disk (mkDisk (Some data) true) w)
    else Done (Some "write programs.yml: permission denied") w.

(** The loop over [pgs] of [readConfigFromDB]: the first name met
    twice. *)
Fixpoint firstDuplicate (visited : gset string) (pgs : list Program) : option string :=
  match pgs with
  | [] => None
  | pg :: rest =>
      if decide (Name pg ∈ visited) then Some (Name pg)
      else firstDuplicate ({[Name pg]} ∪ visited) rest
  end.

Definition readConfigFromDB : M (string + list Program) :=
  r <- ReadFile ;;
  let data := match r with Some data => data | None => emptyData end in
  match yamlUnmarshal data with
  | inl err => ret (inl err)
  | inr pgs =>
      match firstDuplicate ∅ pgs with
      | Some name => ret (inl ("Duplicated program name: " +:+ name))
      | None => ret (inr pgs)
      end
  end.

(** What [readConfigFromDB] returns; it leaves the world alone. *)
Definition parsedConfig (w : World) : string + list Program :=
  match yamlUnmarshal (default emptyData (content (disk w))) with
  | inl err => inl err
  | inr pgs =>
      match firstDuplicate ∅ pgs with
      | Some name => inl ("Duplicated program name: " +:+ name)
      | None => inr pgs
      end
  end.

(** The first loop of [loadDB]; the error of [addOrUpdateProgram] is
    dropped. *)
Fixpoint addLoop (pgs : list Program) (visited : gset string) (names : list string)
  : M (gset string * list string) :=
  match pgs with
  | [] => ret (visited, names)
  | pg :: rest =>
      addOrUpdateProgram pg ;;;
      addLoop rest ({[Name pg]} ∪ visited) (names ++ [Name pg])
  end.

(** The order in which [range s.pgMap] meets the keys. *)
Definition rangeKeys (m : gmap string Program) : list string := (map_to_list m).*1.

(** The second loop of [loadDB].  An entry that an earlier iteration
    deleted is not met. *)
Fixpoint deleteLoop (keys : list string) (visited : gset string) : M unit :=
  match keys with
  | [] => ret tt
  | k :: rest =>
      opg <- gets (fun w => pgMap w !! k) ;;
      match opg with
      | None => deleteLoop rest visited
      | Some pg =>
          if decide (Name pg ∈ visited) then deleteLoop rest visited
          else
            stopAndWait (Name pg) ;;;
            modify (fun w => set_procMap (delete (Name pg) (procMap w)) w) ;;;
            modify (fun w => set_pgMap (delete (Name pg) (pgMap w)) w) ;;;
            broadcastEvent (Name pg +:+ " deleted") ;;;
            deleteLoop rest visited
      end
  end.

Definition loadDB : M error :=
  Lock ;;;
  defer Unlock (
    r <- readConfigFromDB ;;
    match r with
    | inl err => ret (Some err)
    | inr pgs =>
        vn <- addLoop pgs ∅ [] ;;
        modify (set_names vn.2) ;;;
        keys <- gets (fun w => rangeKeys (pgMap w)) ;;
        deleteLoop keys vn.1 ;;;
        ret None
    end).

(** ** [programs] and [saveDB] *)

Definition programs (w : World) : list Program :=
  (fun name => default zeroProgram (pgMap w !! name)) <$> names w.

Definition saveDB : M error :=
  Lock ;;;
  defer Unlock (
    pgs <- gets programs ;;
    match yamlMarshal pgs with
    | inl err => ret (Some err)
    | inr data => WriteFile data
    end).

(** What the environment cannot change: the program of each controller,
    and the goroutines that were started. *)
Definition background (w : World) : list Program * list Task :=
  (program <$> heap w, goroutines w).

(** The triggers that make a controller run that was not running: a
    start given by another goroutine, and the retry timer. *)
Definition reviving (t : Trigger) : bool :=
  match t with
  | OnEvent StartEvent | RetryElapsed => true
  | _ => false
  end.

(** Wake-ups between which nothing is revived. *)
Definition quiet (ks : list Wakeup) : Prop :=
  Forall (Forall (fun s : loc * Trigger => reviving s.2 = false)) ks.

(** The controller at [l] is there and is not running. *)
Definition stoppedAt (h : list Process) (l : loc) : Prop :=
  IsRunning <$> h !! l = Some false.

(** Every registered controller is the controller of a program of that
    name ([s.procMap[pg.Name] = s.newProcess(pg)]). *)
Definition ownName (w : World) : Prop :=
  map_Forall (fun k l => Name <$> (program <$> heap w !! l) = Some k) (procMap w).

(** No registered controller is running. *)
Definition allStopped (w : World) : Prop :=
  map_Forall (fun _ l => stoppedAt (heap w) l) (procMap w).

#[global] Instance stoppedAt_dec h l : Decision (stoppedAt h l).
Proof. unfold stoppedAt. apply _. Defined.

#[global] Instance ownName_dec w : Decision (ownName w).
Proof. unfold ownName. apply _. Defined.

#[global] Instance allStopped_dec w : Decision (allStopped w).
Proof. unfold allStopped. apply _. Defined.

(** ** [procs] and [Close] *)

(** [procs]: the controllers in the order of the name sequence; a name
    without controller gives a nil pointer. *)
Definition procs (w : World) : list (option loc) :=
  (fun name => procMap w !! name) <$> names w.

(** The loop of [Close], over the values of [procMap]. *)
Fixpoint closeLoop (ps : list loc) : M unit :=
  match ps with
  | [] => ret tt
  | l :: rest =>
      proc <- deref (Some l) ;;
      stopAndWait (Name (program proc.2)) ;;;
      closeLoop rest
  end.

Definition Close : M unit :=
  ps <- gets (fun w => (map_to_list (procMap w)).*2) ;;
  closeLoop ps.

(** ** The handlers *)

(** What a handler answers: [http.Error], or a JSON object. *)
Inductive JSON :=
| JNum (n : Z)
| JStr (s : string).

Inductive Response :=
| HttpError (msg : string) (code : Z)
| Body (obj : gmap string JSON).

(** [strconv.Atoi] and [strconv.Quote] belong to a library. *)
Variable Atoi : string -> string + Z.
Variable Quote : string -> string.

Definition StatusForbidden : Z := 403.
Definition StatusBadRequest : Z := 400.

(** [hAddProgram]; [form] is [r.FormValue]. *)
Definition hAddProgram (form : string -> string) : M Response :=
  match Atoi (form "retries") with
  | inl err => ret (HttpError err StatusForbidden)
  | inr retries =>
      let pg := mkProgram (form "name") (form "command") (form "dir")
                  (bool_decide (form "autostart" = "on")) retries in
      let pg := if decide (Dir pg = "")
                then mkProgram (Name pg) (Command pg) "/" (StartAuto pg) (StartRetries pg)
                else pg in
      match Check pg with
      | Some err => ret (HttpError err StatusBadRequest)
      | None =>
          orig <- gets (fun w => pgMap w !! Name pg) ;;
          match orig with
          | Some _ =>
              ret (Body {[ "status" := JNum 1;
                           "error" := JStr ("Program " +:+ Quote (Name pg) +:+ " already exists") ]})
          | None =>
              err <- addOrUpdateProgram pg ;;
              match err with
              | Some err => ret (Body {[ "status" := JNum 1; "error" := JStr err ]})
              | None =>
                  saveDB ;;;
                  ret (Body {[ "status" := JNum 0 ]})
              end
          end
      end
  end.

(** [hStartProgram] and [hStopProgram]; [name] is [mux.Vars(r)["name"]]. *)
Definition hStartProgram (name : string) : M Response :=
  proc <- gets (fun w => procMap w !! name) ;;
  match proc with
  | None =>
      ret (Body {[ "status" := JNum 1;
                   "error" := JStr ("Process " +:+ Quote name +:+ " not exists") ]})
  | Some l =>
      Operate StartEvent l ;;;
      ret (Body {[ "status" := JNum 0; "name" := JStr name ]})
  end.

Definition hStopProgram (name : string) : M Response :=
  proc <- gets (fun w => procMap w !! name) ;;
  match proc with
  | None =>
      ret (Body {[ "status" := JNum 1;
                   "error" := JStr ("Process " +:+ Quote name +:+ " not exists") ]})
  | Some l =>
      Operate StopEvent l ;;;
      ret (Body {[ "status" := JNum 0; "name" := JStr name ]})
  end.

(** [hReload]. *)
Definition hReload : M Response :=
  err <- loadDB ;;
  match err with
  | None => ret (Body {[ "status" := JNum 0; "value" := JStr "load config success" ]})
  | Some err => ret (Body {[ "status" := JNum 1; "value" := JStr err ]})
  end.

(** ** Start-up and signals *)

(** The supervisor that [newSupervisorHandler] makes, before it loads. *)
Definition newSupervisor (d : Disk) (ks : list Wakeup) : World :=
  mkWorld [] ∅ ∅ false [] [] [] d ks.

(** [newSupervisorHandler], as far as the registry goes: the error of the
    first [loadDB], if any. *)
Definition newSupervisorHandler (d : Disk) (ks : list Wakeup) : Outcome error :=
  loadDB (newSupervisor d ks).

Inductive Signal := SIGINT | SIGTERM | SIGHUP.

(** The goroutine of [catchExitSignal], given the signals that arrive:
    it returns when the process exits, and waits for ever when no signal
    is left. *)
Fixpoint catchExitSignal (sigC : list Signal) : M unit :=
  match sigC with
  | [] => fun w => Blocked w
  | SIGHUP :: rest => catchExitSignal rest
  | _ :: _ => Close
  end.

(** ** The invariant of the registry *)

(** The names of the name sequence, the keys of [pgMap] and the keys of
    [procMap] are the same. *)
Definition sameKeys (w : World) : Prop :=
  list_to_set (names w) = dom (pgMap w) /\ dom (pgMap w) = dom (procMap w).

(** Every spec is stored under its own name ([s.pgMap[pg.Name] = pg]). *)
Definition wellKeyed (w : World) : Prop :=
  map_Forall (fun k pg => Name pg = k) (pgMap w).

#[global] Instance sameKeys_dec w : Decision (sameKeys w).
Proof. unfold sameKeys. apply _. Defined.

#[global] Instance wellKeyed_dec w : Decision (wellKeyed w).
Proof. unfold wellKeyed. apply _. Defined.

End Supervisor.

Arguments Done {Data A} a w.
Arguments Blocked {Data A} w.
Arguments Panicked {Data A} w.

(** ** A codec to run the model with

    The file holds the list of records itself (the logical schema of the
    configuration); the empty file holds no record. *)
Definition schemaUnmarshal (data : list Program) : string + list Program := inr data.
Definition schemaMarshal (pgs : list Program) : string + list Program := inr pgs.

Definition load : M (Data := list Program) error := loadDB [] schemaUnmarshal.
Definition save : M (Data := list Program) error := saveDB schemaMarshal.

(** Programs to run it on: [pgA'] is [pgA] with another command; [Check]
    rejects [pgBad] and [pgInvalidA], whose command is empty. *)
Definition pgA : Program := mkProgram "A" "sleep 100" "/" true 3.
Definition pgA' : Program := mkProgram "A" "sleep 200" "/" true 3.
Definition pgB : Program := mkProgram "B" "tail -f log" "/" true 3.
Definition pgBad : Program := mkProgram "bad" "" "/" false 0.
Definition pgInvalidA : Program := mkProgram "A" "" "/" true 3.

(** A parser that rejects every file; [Quote] and [Atoi] on printable
    ASCII text: the text between quotes with its quotes and backslashes
    escaped, and a decimal number with an optional sign that fits 64
    bits; and the form of a request to add [pgB]. *)
Definition garbledUnmarshal (data : list Program) : string + list Program :=
  inl "yaml: unmarshal errors".

Definition quoteMark : Ascii.ascii := Ascii.ascii_of_nat 34.
Definition backslash : Ascii.ascii := Ascii.ascii_of_nat 92.
Definition plusSign : Ascii.ascii := Ascii.ascii_of_nat 43.

Fixpoint escaped (s : string) : string :=
  match s with
  | EmptyString => EmptyString
  | String c s' =>
      if decide (c = quoteMark \/ c = backslash)
      then String backslash (String c (escaped s'))
      else String c (escaped s')
  end.

Definition quoted (s : string) : string :=
  String quoteMark (escaped s) +:+ String quoteMark EmptyString.

Definition decimalAtoi (s : string) : string + Z :=
  let parsed :=
    match s with
    | String c s' =>
        if decide (c = plusSign) then Z.of_uint <$> NilZero.uint_of_string s'
        else Z.of_int <$> NilZero.int_of_string s
    | EmptyString => None
    end in
  match parsed with
  | Some z =>
      if decide (- 2 ^ 63 <= z < 2 ^ 63)%Z then inr z
      else inl ("strconv.Atoi: parsing " +:+ quoted s +:+ ": value out of range")
  | None => inl ("strconv.Atoi: parsing " +:+ quoted s +:+ ": invalid syntax")
  end.

Definition formB (key : string) : string :=
  default "" (({[ "name" := "B"; "command" := "tail -f log"; "autostart" := "on";
                  "retries" := "3" ]} : gmap string string) !! key).

(** The supervisor as [newSupervisorHandler] builds it, before its first
    [loadDB]. *)
Definition emptyWorld (file : option (list Program)) : World :=
  mkWorld [] ∅ ∅ false [] [] [] (mkDisk file true) [].

(** A registry that holds [pgA], its controller in the state [st]. *)
Definition worldA (st : FSMState) (file : option (list Program)) (ks : list Wakeup) : World :=
  mkWorld ["A"] {["A" := pgA]} {["A" := 0]} false [mkProcess pgA st 0] [] []
    (mkDisk file true) ks.

(** The same registry, its file on a disk that cannot be written. *)
Definition readOnlyWorld : World :=
  mkWorld ["A"] {["A" := pgA]} {["A" := 0]} false [mkProcess pgA Running 0] [] []
    (mkDisk (@None (list Program)) false) [].

(** A registry that holds [pgA] and [pgB], both controllers Running. *)
Definition worldAB (file : option (list Program)) (ks : list Wakeup) : World :=
  mkWorld ["A"; "B"] {["A" := pgA; "B" := pgB]} {["A" := 0; "B" := 1]} false
    [mkProcess pgA Running 0; mkProcess pgB Running 0] [] [] (mkDisk file true) ks.

(** * Properties *)

Section Registry.

Context {Data : Type}.

Implicit Types (w : World (Data := Data)) (pg : Program) (p : Process) (l : loc).

(** ** Setters *)

Lemma unlock_after_lock w : mu w = false -> set_mu false (set_mu true w) = w.
Proof. destruct w; simpl; intros ->; reflexivity. Qed.

(** ** The invariant, name by name *)

Lemma sameKeys_names w :
  sameKeys w -> forall k, k ∈ names w <-> is_Some (pgMap w !! k).
Proof.
  intros [H _] k. rewrite <- elem_of_dom, <- H. symmetry. apply elem_of_list_to_set.
Qed.

(** ** The environment leaves the registry alone *)

Lemma deliver_registry l t w : registry (deliver l t w) = registry w.
Proof. unfold deliver. destruct (heap w !! l) as [p|]; [destruct (fsmStep p t)|]; reflexivity. Qed.

Lemma envStep_registry w s : registry (envStep w s) = registry w.
Proof.
  unfold envStep. destruct (s.2), (heap w !! s.1); rewrite deliver_registry; reflexivity.
Qed.

Lemma foldl_envStep_registry k w : registry (foldl envStep w k) = registry w.
Proof.
  revert w. induction k as [|s k IH]; intros w; simpl; [reflexivity|].
  rewrite IH. apply envStep_registry.
Qed.

Lemma waitLoop_registry l ks w : registry (finalWorld (waitLoop l ks w)) = registry w.
Proof.
  revert w. induction ks as [|k ks IH]; intros w; simpl; [reflexivity|].
  destruct (heap (foldl envStep w k) !! l) as [p|]; simpl.
  - destruct (IsRunning p); simpl; [rewrite IH|]; apply foldl_envStep_registry.
  - apply foldl_envStep_registry.
Qed.

(** When the loop returns, it returns [nil] and the controller it watched
    is not running. *)
Lemma waitLoop_done l ks w r w' :
  waitLoop l ks w = Done r w' ->
  r = None /\ exists p', heap w' !! l = Some p' /\ IsRunning p' = false.
Proof.
  revert w. induction ks as [|k ks IH]; intros w; simpl; [discriminate|].
  destruct (heap (foldl envStep w k) !! l) as [p|] eqn:Hl; [|discriminate].
  destruct (IsRunning p) eqn:Hr; [apply IH|].
  intros [= <- <-]. split; [reflexivity|]. exists p. simpl. auto.
Qed.

Lemma stopAndWait_registry name w :
  registry (finalWorld (stopAndWait name w)) = registry w.
Proof.
  unfold stopAndWait.
  destruct (procMap w !! name) as [l|]; [|reflexivity].
  destruct (heap w !! l) as [p|] eqn:Hl; [|reflexivity].
  destruct (IsRunning p); simpl; [|reflexivity].
  unfold bind, addStatusChangeListener, modify, Operate. simpl. rewrite Hl.
  rewrite waitLoop_registry, deliver_registry. reflexivity.
Qed.

(** ** [stopAndWait] *)

(** C10: for a name that is not a key of the controller map,
    [stopAndWait] returns the error "No such program" and the world it
    leaves is the world it found: no event was given to a controller,
    nothing was broadcast, the registry is as it was. *)
Theorem stopAndWait_no_such_program w name :
  procMap w !! name = None ->
  stopAndWait name w = Done (Some "No such program") w.
Proof. intros H. unfold stopAndWait. rewrite H. reflexivity. Qed.

(** [stopAndWait] on a registered name: what holds when it returns. *)
Lemma stopAndWait_done w name l p r w' :
  procMap w !! name = Some l ->
  heap w !! l = Some p ->
  stopAndWait name w = Done r w' ->
  r = None /\ procMap w' !! name = Some l /\
  exists p', heap w' !! l = Some p' /\ IsRunning p' = false.
Proof.
  intros Hn Hl Hs.
  assert (Hreg : registry w' = registry w).
  { pose proof (stopAndWait_registry name w) as H. rewrite Hs in H. exact H. }
  assert (Hpm : procMap w' !! name = Some l).
  { injection Hreg as _ _ ->. exact Hn. }
  revert Hs. unfold stopAndWait. rewrite Hn, Hl.
  destruct (IsRunning p) eqn:Hr; simpl.
  - unfold bind, addStatusChangeListener, modify, Operate. simpl. rewrite Hl.
    intros Hs. apply waitLoop_done in Hs as [-> Hp]. auto.
  - intros [= <- <-]. split; [reflexivity|]. split; [exact Hn|].
    exists p. auto.
Qed.

(** C3: for a name registered in the controller map, [stopAndWait]
    returns at once with [nil], in an unchanged world (no [StopEvent], no
    broadcast), when the controller is not running; and whenever it
    returns, it returns [nil] and the controller registered under the name
    is not running in the world it returns in. *)
Theorem stopAndWait_returns_stopped w name l p :
  procMap w !! name = Some l ->
  heap w !! l = Some p ->
  (IsRunning p = false -> stopAndWait name w = Done None w) /\
  (forall r w', stopAndWait name w = Done r w' ->
     r = None /\ procMap w' !! name = Some l /\
     exists p', heap w' !! l = Some p' /\ IsRunning p' = false).
Proof.
  intros Hn Hl. split.
  - intros Hr. unfold stopAndWait. rewrite Hn, Hl, Hr. reflexivity.
  - intros r w'. by apply stopAndWait_done with p.
Qed.

(** [stopAndWait] does return: a Running controller that is told to stop
    is found not running at the first wake-up, unless somebody starts it
    again in between. *)
Lemma fsmStep_halted p t p' :
  halted p -> t <> OnEvent StartEvent -> fsmStep p t = Some p' -> halted p'.
Proof.
  unfold halted, fsmStep. intros [H|H] Ht; rewrite H;
    destruct t as [[]| | | | |]; try discriminate; try congruence;
    intros [= <-]; simpl; auto.
Qed.

Lemma heap_envStep w s :
  heap (envStep w s) =
  match heap w !! s.1 with
  | Some q => match fsmStep q s.2 with Some q' => <[s.1 := q']> (heap w) | None => heap w end
  | None => heap w
  end.
Proof.
  unfold envStep, deliver. destruct s as [l' t]. simpl.
  destruct t, (heap w !! l') as [q|] eqn:Hq; simpl; rewrite ?Hq;
    try reflexivity; destruct (fsmStep q _); reflexivity.
Qed.

Lemma envStep_halted l w s p :
  heap w !! l = Some p -> halted p -> s <> (l, OnEvent StartEvent) ->
  exists p', heap (envStep w s) !! l = Some p' /\ halted p'.
Proof.
  intros Hl Hp Hs. rewrite heap_envStep. destruct s as [l' t]. simpl.
  destruct (decide (l' = l)) as [->|Hne].
  - rewrite Hl. destruct (fsmStep p t) as [p'|] eqn:Hf; [|eauto].
    rewrite list_lookup_insert_eq by (by eapply lookup_lt_Some).
    exists p'. split; [reflexivity|]. apply (fsmStep_halted p t); [exact Hp| |exact Hf].
    intros ->. by apply Hs.
  - destruct (heap w !! l') as [q|]; [destruct (fsmStep q t)|];
      rewrite ?list_lookup_insert_ne by exact Hne; eauto.
Qed.

Lemma foldl_envStep_halted l k w p :
  heap w !! l = Some p -> halted p ->
  Forall (fun s => s <> (l, OnEvent StartEvent)) k ->
  exists p', heap (foldl envStep w k) !! l = Some p' /\ halted p'.
Proof.
  revert w p. induction k as [|s k IH]; intros w p Hl Hp Hk; simpl; [eauto|].
  apply Forall_cons in Hk as [Hs Hk].
  destruct (envStep_halted l w s p Hl Hp Hs) as (p1 & Hl1 & Hp1).
  by apply (IH _ p1).
Qed.

(** X15: [stopAndWait] returns for a Running controller: told to stop,
    the controller is found not running at the first wake-up of the loop,
    unless another goroutine starts it again in between. *)
Lemma stopAndWait_running_returns w name l p k ks :
  procMap w !! name = Some l -> heap w !! l = Some p -> state p = Running ->
  sched w = k :: ks -> Forall (fun s => s <> (l, OnEvent StartEvent)) k ->
  exists w', stopAndWait name w = Done None w'.
Proof.
  intros Hn Hl Hst Hsched Hk.
  unfold stopAndWait. rewrite Hn, Hl. unfold IsRunning at 1. rewrite Hst. simpl.
  unfold bind, addStatusChangeListener, modify, Operate. simpl. rewrite Hl.
  unfold deliver. simpl. rewrite Hl. unfold fsmStep. rewrite Hst. simpl.
  rewrite Hsched. simpl.
  match goal with
  | |- context [foldl envStep ?w0 k] =>
      destruct (foldl_envStep_halted l k w0 (mkProcess (program p) Stopping (retries p)))
        as (p' & Hl' & Hp')
  end.
  - simpl. apply list_lookup_insert_eq. by eapply lookup_lt_Some.
  - by left.
  - exact Hk.
  - rewrite Hl'. unfold IsRunning. destruct Hp' as [-> | ->]; eauto.
Qed.

(** ** The loops of [readConfigFromDB] and [loadDB] *)

Lemma firstDuplicate_None visited pgs :
  firstDuplicate visited pgs = None <->
  NoDup (Name <$> pgs) /\ forall n, n ∈ Name <$> pgs -> n ∉ visited.
Proof.
  revert visited. induction pgs as [|pg pgs IH]; intros visited; simpl.
  - split; [intros _|reflexivity]. split; [constructor|]. intros n Hn. inversion Hn.
  - destruct (decide (Name pg ∈ visited)) as [Hin|Hin].
    + split; [discriminate|]. intros [_ H]. exfalso. apply (H (Name pg)); [left|exact Hin].
    + rewrite IH, NoDup_cons. split.
      * intros [Hnd Hv]. split; [split; [|exact Hnd]|].
        -- intros Hn. apply (Hv _ Hn), elem_of_union. left. by apply elem_of_singleton.
        -- intros n Hn. apply elem_of_cons in Hn as [->|Hn]; [exact Hin|].
           intros Hu. apply (Hv _ Hn), elem_of_union. by right.
      * intros [[Hn Hnd] Hv]. split; [exact Hnd|].
        intros n Hm Hu. apply elem_of_union in Hu as [Hu|Hu].
        -- apply elem_of_singleton in Hu as ->. contradiction.
        -- apply (Hv n); [by right|exact Hu].
Qed.

Lemma firstDuplicate_Some pgs i j a b :
  i <> j -> pgs !! i = Some a -> pgs !! j = Some b -> Name a = Name b ->
  exists name, firstDuplicate ∅ pgs = Some name.
Proof.
  intros Hij Ha Hb Hab.
  destruct (firstDuplicate ∅ pgs) as [name|] eqn:Hd; [eauto|].
  apply firstDuplicate_None in Hd as [Hnd _].
  exfalso. apply Hij.
  apply (proj1 (NoDup_alt _) Hnd i j (Name a)); rewrite list_lookup_fmap.
  - by rewrite Ha.
  - by rewrite Hb, Hab.
Qed.

(** A spec that is stored as it is given is left alone, whether [Check]
    accepts it or not. *)
Lemma addOrUpdateProgram_unchanged pg w :
  pgMap w !! Name pg = Some pg -> exists r, addOrUpdateProgram pg w = Done r w.
Proof.
  intros H. unfold addOrUpdateProgram.
  destruct (Check pg); [by eexists|].
  unfold bind, gets. rewrite H. rewrite decide_True by reflexivity. by eexists.
Qed.

(** What the first loop of [loadDB] computes, whatever it does to the
    world: every name is appended and marked as visited. *)
Lemma addLoop_result pgs visited ns w r w' :
  addLoop pgs visited ns w = Done r w' ->
  r.2 = ns ++ (Name <$> pgs) /\
  forall n, n ∈ r.1 <-> n ∈ visited \/ n ∈ Name <$> pgs.
Proof.
  revert visited ns w. induction pgs as [|pg pgs IH]; intros visited ns w; simpl.
  - intros [= <- <-]. simpl. rewrite app_nil_r. split; [reflexivity|]. set_solver.
  - unfold bind at 1. destruct (addOrUpdateProgram pg w) as [e w1| |]; [|discriminate..].
    intros H. apply IH in H as [-> Hv]. split; [by rewrite <- app_assoc|].
    intros n. rewrite Hv. set_solver.
Qed.

Lemma addLoop_unchanged pgs visited ns w :
  (forall pg, pg ∈ pgs -> pgMap w !! Name pg = Some pg) ->
  exists r, addLoop pgs visited ns w = Done r w.
Proof.
  revert visited ns. induction pgs as [|pg pgs IH]; intros visited ns H; simpl.
  - by eexists.
  - destruct (addOrUpdateProgram_unchanged pg w) as [e He]; [apply H; by left|].
    unfold bind at 1. rewrite He. apply IH. intros pg' Hpg'. apply H. by right.
Qed.

(** The second loop of [loadDB] deletes nothing when every stored spec
    was visited. *)
Lemma deleteLoop_unchanged keys visited w :
  (forall k pg, pgMap w !! k = Some pg -> Name pg ∈ visited) ->
  deleteLoop keys visited w = Done tt w.
Proof.
  intros H. induction keys as [|k keys IH]; simpl; [reflexivity|].
  unfold bind at 1, gets.
  destruct (pgMap w !! k) as [pg|] eqn:Hk; [|exact IH].
  rewrite decide_True by eauto. exact IH.
Qed.

(** What the second loop of [loadDB] leaves when it comes to its end:
    the entries met and not visited are gone from both maps, the others
    are as they were. *)
Lemma deleteLoop_done keys visited w r w' :
  wellKeyed w ->
  deleteLoop keys visited w = Done r w' ->
  names w' = names w /\
  (forall k, pgMap w' !! k =
     if decide (k ∈ keys /\ (k ∉ visited)) then None else pgMap w !! k) /\
  (forall k, procMap w' !! k =
     if decide (k ∈ keys /\ (k ∉ visited) /\ is_Some (pgMap w !! k)) then None
     else procMap w !! k).
Proof.
  revert w. induction keys as [|k0 keys IH]; intros w Hw Hd; simpl in Hd; revert Hd.
  - intros [= <- <-]. split; [reflexivity|].
    split; intros k; rewrite decide_False; try reflexivity; intros [H _]; inversion H.
  - unfold bind at 1, gets.
    destruct (pgMap w !! k0) as [pg|] eqn:Hk0.
    + pose proof (Hw _ _ Hk0) as Hname. rewrite Hname.
      destruct (decide (k0 ∈ visited)) as [Hv|Hv].
      * intros H. destruct (IH _ Hw H) as (Hn & Hpg & Hpr). split; [exact Hn|].
        split; intros k; [rewrite Hpg|rewrite Hpr]; repeat case_decide; try reflexivity;
          exfalso; set_solver.
      * unfold bind at 1.
        pose proof (stopAndWait_registry k0 w) as Hreg.
        destruct (stopAndWait k0 w) as [e wm| |]; [|discriminate..].
        simpl in Hreg. injection Hreg as Hn1 Hpg1 Hpr1.
        unfold bind at 1, modify at 1. unfold bind at 1, modify at 1.
        unfold bind at 1, broadcastEvent, modify at 1.
        intros H. apply IH in H as (Hn & Hpg & Hpr).
        2:{ unfold wellKeyed. simpl. rewrite Hpg1. by apply map_Forall_delete. }
        simpl in Hn, Hpg, Hpr. split; [congruence|].
        split; intros k; [rewrite Hpg, Hpg1|rewrite Hpr, Hpg1, Hpr1];
          destruct (decide (k = k0)) as [->|Hne];
          rewrite ?lookup_delete_eq, ?lookup_delete_ne by congruence;
          repeat case_decide; try reflexivity; exfalso;
          rewrite ?lookup_delete_eq, ?lookup_delete_ne in * by congruence;
          try (destruct (procMap w !! k0); set_solver); set_solver.
    + intros H. destruct (IH _ Hw H) as (Hn & Hpg & Hpr). split; [exact Hn|].
      split; intros k; [rewrite Hpg|rewrite Hpr];
        destruct (decide (k = k0)) as [->|Hne];
        repeat case_decide; try reflexivity; try (by rewrite Hk0); exfalso;
        try (rewrite Hk0 in *; by destruct_and?; match goal with H : is_Some None |- _ => destruct H end);
        set_solver.
Qed.

Lemma programs_names w :
  (forall k, k ∈ names w -> is_Some (pgMap w !! k)) -> wellKeyed w ->
  Name <$> programs w = names w.
Proof.
  intros Hk Hw. unfold programs. revert Hk.
  induction (names w) as [|n ns IH]; intros Hk; [reflexivity|].
  rewrite !fmap_cons, IH by (intros k Hin; apply Hk; by right). f_equal.
  destruct (Hk n) as [pg Hpg]; [by left|]. rewrite Hpg. simpl. eauto.
Qed.

Lemma programs_stored w pg :
  (forall k, k ∈ names w -> is_Some (pgMap w !! k)) -> wellKeyed w ->
  pg ∈ programs w -> pgMap w !! Name pg = Some pg.
Proof.
  intros Hk Hw Hpg. unfold programs in Hpg.
  apply list_elem_of_fmap in Hpg as (n & -> & Hn).
  destruct (Hk n Hn) as [pg Hpg]. rewrite Hpg. simpl.
  by rewrite (Hw _ _ Hpg).
Qed.

Lemma elem_of_rangeKeys (m : gmap string Program) k :
  k ∈ rangeKeys m <-> is_Some (m !! k).
Proof.
  unfold rangeKeys. rewrite list_elem_of_fmap. split.
  - intros [[k' pg] [-> H]]. apply elem_of_map_to_list in H. simpl. eauto.
  - intros [pg H]. exists (k, pg). split; [reflexivity|]. by apply elem_of_map_to_list.
Qed.

(** What one call of [addOrUpdateProgram] does to the two maps: nothing,
    or one new entry in each. *)
Lemma addOrUpdateProgram_done pg w r w1 :
  addOrUpdateProgram pg w = Done r w1 ->
  (pgMap w1 = pgMap w /\ procMap w1 = procMap w /\
   (Check pg = None -> is_Some (pgMap w !! Name pg))) \/
  (Check pg = None /\ pgMap w !! Name pg = None /\
   pgMap w1 = <[Name pg := pg]> (pgMap w) /\
   procMap w1 = <[Name pg := length (heap w)]> (procMap w)).
Proof.
  unfold addOrUpdateProgram. destruct (Check pg) as [err|] eqn:Hc.
  - intros [= <- <-]. left. repeat split. discriminate.
  - unfold bind at 1, gets at 1. destruct (pgMap w !! Name pg) as [origPg|] eqn:Hpg.
    + destruct (decide (origPg = pg)) as [->|Hne].
      * intros [= <- <-]. left. eauto.
      * unfold bind at 1, broadcastEvent, modify at 1. unfold bind at 1, gets at 1.
        unfold bind at 1, deref. simpl.
        destruct (procMap w !! Name pg ≫= _) as [lp|]; [|discriminate].
        intros [= <- <-]. left. eauto.
    + intros [= <- <-]. right. eauto.
Qed.

Lemma addLoop_done pgs visited ns w r w1 :
  dom (pgMap w) = dom (procMap w) -> wellKeyed w ->
  addLoop pgs visited ns w = Done r w1 ->
  dom (pgMap w1) = dom (procMap w1) /\ wellKeyed w1 /\
  dom (pgMap w) ⊆ dom (pgMap w1) /\
  forall pg, pg ∈ pgs -> Check pg = None -> Name pg ∈ dom (pgMap w1).
Proof.
  revert visited ns w. induction pgs as [|pg pgs IH]; intros visited ns w Hd Hw; simpl.
  - intros [= <- <-]. repeat split; try done. intros pg H. inversion H.
  - unfold bind at 1.
    destruct (addOrUpdateProgram pg w) as [e w0| |] eqn:Ha; [|discriminate..].
    intros Hl.
    assert (Hstep : dom (pgMap w0) = dom (procMap w0) /\ wellKeyed w0 /\
                    dom (pgMap w) ⊆ dom (pgMap w0) /\
                    (Check pg = None -> Name pg ∈ dom (pgMap w0))).
    { apply addOrUpdateProgram_done in Ha
        as [(Hpg & Hpr & Hin)|(Hc & Hnone & Hpg & Hpr)].
      - unfold wellKeyed. rewrite Hpg, Hpr. repeat split; try done.
        intros Hc. apply elem_of_dom. auto.
      - unfold wellKeyed. rewrite Hpg, Hpr, !dom_insert_L, Hd.
        repeat split; [|set_solver|set_solver].
        apply map_Forall_insert; [exact Hnone|]. split; [reflexivity|exact Hw]. }
    destruct Hstep as (Hd0 & Hw0 & Hsub0 & Hin0).
    destruct (IH _ _ _ Hd0 Hw0 Hl) as (Hd1 & Hw1 & Hsub1 & Hin1).
    repeat split; try done; [set_solver|].
    intros pg' Hpg' Hc. apply elem_of_cons in Hpg' as [->|Hpg']; [|by apply Hin1].
    apply Hsub1. auto.
Qed.

(** The name sequence that [loadDB] leaves holds every name of the
    configuration, in its order, whether [Check] accepted the entry or
    not. *)
Lemma deleteLoop_names keys visited w :
  names (finalWorld (deleteLoop keys visited w)) = names w.
Proof.
  revert w. induction keys as [|k0 keys IH]; intros w; simpl; [reflexivity|].
  unfold bind at 1, gets. destruct (pgMap w !! k0) as [pg|]; [|apply IH].
  destruct (decide (Name pg ∈ visited)); [apply IH|].
  unfold bind at 1. pose proof (stopAndWait_registry (Name pg) w) as Hreg.
  destruct (stopAndWait (Name pg) w) as [e wm| |]; simpl in *;
    injection Hreg as Hn _ _; try exact Hn.
  unfold bind at 1, modify at 1. unfold bind at 1, modify at 1.
  unfold bind at 1, broadcastEvent, modify at 1. rewrite IH. exact Hn.
Qed.

(** ** The update path *)

(** C4 (amended): for a spec whose name is registered and whose fields
    differ from the stored spec.  When [Check] rejects it,
    [addOrUpdateProgram] returns the error of [Check] and the world is as
    it was: no event, no goroutine, no replacement.  When [Check] accepts
    it, [addOrUpdateProgram] broadcasts "<name> update", records whether
    the registered controller is running and starts a goroutine, returning
    [nil] with the registry as it was.  That goroutine stops-and-waits the
    old controller; as long as [stopAndWait] does not return it replaces
    nothing, and once [stopAndWait] has returned (the old controller is
    then not running) the goroutine runs to its end: both maps hold the
    new spec and a fresh controller built from it, and that controller
    was given [StartEvent], and so is Starting, if and only if the old one
    had been running. *)
Theorem addOrUpdateProgram_update w pg origPg l p :
  pgMap w !! Name pg = Some origPg -> origPg <> pg ->
  procMap w !! Name pg = Some l -> heap w !! l = Some p ->
  (forall err, Check pg = Some err -> addOrUpdateProgram pg w = Done (Some err) w) /\
  (Check pg = None ->
   addOrUpdateProgram pg w =
     Done None
       (set_goroutines (goroutines w ++ [mkTask l pg (IsRunning p)])
          (set_trace (trace w ++ [Broadcast (Name pg +:+ " update")]) w)) /\
   forall w1 p1,
     heap w1 !! l = Some p1 ->
     (forall r wm,
        stopAndWait (Name (program p1)) w1 = Done r wm ->
        exists w2,
          updateBody (mkTask l pg (IsRunning p)) w1 = Done tt w2 /\
          procMap w2 = <[Name pg := length (heap wm)]> (procMap wm) /\
          pgMap w2 = <[Name pg := pg]> (pgMap wm) /\
          names w2 = names wm /\
          heap w2 = heap wm ++ [mkProcess pg (if IsRunning p then Starting else Stopped) 0] /\
          operated w2 =
            operated wm ++ (if IsRunning p then [(length (heap wm), StartEvent)] else []) /\
          (procMap w1 !! Name (program p1) = Some l ->
           r = None /\ exists p', heap wm !! l = Some p' /\ IsRunning p' = false)) /\
     (forall w2,
        updateBody (mkTask l pg (IsRunning p)) w1 = Done tt w2 ->
        exists r wm, stopAndWait (Name (program p1)) w1 = Done r wm) /\
     (forall wm,
        stopAndWait (Name (program p1)) w1 = Blocked wm ->
        updateBody (mkTask l pg (IsRunning p)) w1 = Blocked wm)).
Proof.
  intros Hpg Hne Hl Hp. split.
  { intros err Hc. unfold addOrUpdateProgram. by rewrite Hc. }
  intros Hc. split.
  - unfold addOrUpdateProgram. rewrite Hc. unfold bind at 1, gets at 1. rewrite Hpg.
    rewrite decide_False by exact Hne.
    unfold bind at 1, broadcastEvent, modify at 1.
    unfold bind at 1, gets at 1. simpl. rewrite Hl.
    unfold bind at 1, deref. simpl. rewrite Hp. reflexivity.
  - intros w1 p1 Hp1.
    remember (updateBody (mkTask l pg (IsRunning p)) w1) as u eqn:Hu.
    unfold updateBody, bind at 1, gets in Hu. simpl in Hu.
    replace (heap w1 !! l) with (Some p1) in Hu. unfold bind at 1 in Hu.
    destruct (stopAndWait (Name (program p1)) w1) as [r0 wm0| |] eqn:Hs.
    + split; [|split; [by eauto|discriminate]].
      intros r wm [= <- <-].
      unfold bind at 1, newProcess in Hu.
      unfold bind at 1, modify at 1 in Hu. unfold bind at 1, modify at 1 in Hu.
      simpl in Hu.
      assert (Hold : procMap w1 !! Name (program p1) = Some l ->
                     r0 = None /\ exists p', heap wm0 !! l = Some p' /\ IsRunning p' = false).
      { intros Hl1. destruct (stopAndWait_done _ _ _ _ _ _ Hl1 Hp1 Hs) as (-> & _ & Hst). auto. }
      destruct (IsRunning p).
      * unfold Operate in Hu. simpl in Hu.
        rewrite lookup_app_r, Nat.sub_diag in Hu by reflexivity. simpl in Hu.
        unfold deliver in Hu. simpl in Hu.
        rewrite lookup_app_r, Nat.sub_diag in Hu by reflexivity. simpl in Hu.
        eexists. split; [exact Hu|]. simpl.
        rewrite insert_app_r_alt, Nat.sub_diag by reflexivity. simpl.
        do 4 (split; [reflexivity|]). split; [|exact Hold].
        unfold operated. simpl. rewrite <- app_assoc, omap_app. reflexivity.
      * unfold ret in Hu. eexists. split; [exact Hu|]. simpl.
        do 4 (split; [reflexivity|]). split; [|exact Hold]. by rewrite app_nil_r.
    + subst u. split; [discriminate|]. split; [discriminate|].
      intros wm [= <-]. reflexivity.
    + subst u. split; [discriminate|]. split; discriminate.
Qed.

(** The goroutine of the update path never touches the mutex. *)
Lemma updateBody_mu t w : mu (finalWorld (updateBody t w)) = mu w.
Proof.
  assert (Hdel : forall l tr w0, mu (deliver l tr w0) = mu w0).
  { intros l tr w0. unfold deliver.
    destruct (heap w0 !! l) as [p|]; [destruct (fsmStep p tr)|]; reflexivity. }
  assert (Henv : forall k w0, mu (foldl envStep w0 k) = mu w0).
  { induction k as [|s k IH]; intros w0; simpl; [reflexivity|]. rewrite IH.
    unfold envStep. destruct (s.2), (heap w0 !! s.1); by rewrite Hdel. }
  assert (Hwait : forall l ks w0, mu (finalWorld (waitLoop l ks w0)) = mu w0).
  { intros l ks. induction ks as [|k ks IH]; intros w0; simpl; [reflexivity|].
    destruct (heap (foldl envStep w0 k) !! l) as [p|]; simpl; [|apply Henv].
    destruct (IsRunning p); simpl; [rewrite IH|]; apply Henv. }
  assert (Hstop : forall name w0, mu (finalWorld (stopAndWait name w0)) = mu w0).
  { intros name w0. unfold stopAndWait.
    destruct (procMap w0 !! name) as [l|]; [|reflexivity].
    destruct (heap w0 !! l) as [p|] eqn:Hl; [|reflexivity].
    destruct (IsRunning p); simpl; [|reflexivity].
    unfold bind, addStatusChangeListener, modify, Operate. simpl. rewrite Hl.
    by rewrite Hwait, Hdel. }
  unfold updateBody, bind at 1, gets.
  destruct (heap w !! origProc t) as [p|]; [|reflexivity].
  unfold bind at 1. specialize (Hstop (Name (program p)) w).
  destruct (stopAndWait (Name (program p)) w) as [r wm| |]; simpl in *; try exact Hstop.
  unfold bind, newProcess, modify. simpl.
  destruct (isRunning t); [|exact Hstop].
  unfold Operate. simpl. rewrite lookup_app_r, Nat.sub_diag by reflexivity. simpl.
  by rewrite Hdel.
Qed.

End Registry.

(** ** [readConfigFromDB] and [loadDB] *)

Section Loading.

Context {Data : Type}.
Variable emptyData : Data.
Variable yamlUnmarshal : Data -> string + list Program.

Implicit Types (w : World (Data := Data)) (pg : Program).

Lemma readConfigFromDB_eq w :
  readConfigFromDB emptyData yamlUnmarshal w = Done (parsedConfig emptyData yamlUnmarshal w) w.
Proof.
  unfold readConfigFromDB, parsedConfig, bind, ReadFile, gets, default.
  destruct (content (disk w)); simpl;
    (destruct (yamlUnmarshal _) as [e|pgs]; [reflexivity|]);
    destruct (firstDuplicate ∅ pgs); reflexivity.
Qed.

Lemma loadDB_rejected w err :
  mu w = false -> parsedConfig emptyData yamlUnmarshal w = inl err ->
  loadDB emptyData yamlUnmarshal w = Done (Some err) w.
Proof.
  intros Hmu Hp. unfold loadDB, bind at 1, Lock, defer. rewrite Hmu.
  unfold bind at 1. rewrite readConfigFromDB_eq.
  change (parsedConfig emptyData yamlUnmarshal (set_mu true w))
    with (parsedConfig emptyData yamlUnmarshal w).
  rewrite Hp.
  unfold ret, bind, Unlock, modify. by rewrite unlock_after_lock.
Qed.

(** [loadDB] once the configuration is read: the two loops, under the
    mutex. *)
Lemma loadDB_accepted w pgs :
  mu w = false -> parsedConfig emptyData yamlUnmarshal w = inr pgs ->
  loadDB emptyData yamlUnmarshal w =
    match addLoop pgs ∅ [] (set_mu true w) with
    | Done vn w1 =>
        match deleteLoop (rangeKeys (pgMap w1)) vn.1 (set_names vn.2 w1) with
        | Done _ w2 => Done None (set_mu false w2)
        | Blocked w2 => Blocked w2
        | Panicked w2 => Panicked (set_mu false w2)
        end
    | Blocked w1 => Blocked w1
    | Panicked w1 => Panicked (set_mu false w1)
    end.
Proof.
  intros Hmu Hp. unfold loadDB, bind at 1, Lock, defer. rewrite Hmu.
  unfold bind at 1. rewrite readConfigFromDB_eq.
  change (parsedConfig emptyData yamlUnmarshal (set_mu true w))
    with (parsedConfig emptyData yamlUnmarshal w).
  rewrite Hp.
  unfold bind at 1. destruct (addLoop pgs ∅ [] (set_mu true w)) as [vn w1| |]; try reflexivity.
  unfold bind at 1, modify at 1. unfold bind at 1, gets at 1. unfold bind at 1. simpl.
  destruct (deleteLoop _ _ _); reflexivity.
Qed.

(** C2: when the configuration read from the file holds two specs with
    the same name, [loadDB] returns the error "Duplicated program name"
    and the world it leaves is the world it found: name sequence, spec
    map and controller map are untouched and nothing was broadcast. *)
Theorem loadDB_duplicate_untouched w pgs i j a b :
  mu w = false ->
  yamlUnmarshal (default emptyData (content (disk w))) = inr pgs ->
  i <> j -> pgs !! i = Some a -> pgs !! j = Some b -> Name a = Name b ->
  exists name,
    loadDB emptyData yamlUnmarshal w = Done (Some ("Duplicated program name: " +:+ name)) w.
Proof.
  intros Hmu Hy Hij Ha Hb Hab.
  destruct (firstDuplicate_Some pgs i j a b Hij Ha Hb Hab) as [name Hd].
  exists name. apply loadDB_rejected; [exact Hmu|].
  unfold parsedConfig. by rewrite Hy, Hd.
Qed.

(** C7: on a registry that satisfies its invariant, [loadDB] with a
    configuration equal, entry for entry, to the stored specs in the
    order of the name sequence returns in the world it found: the name
    sequence, the spec map and the controller map are unchanged, no
    controller has moved and nothing was broadcast.  It returns [nil] when
    no name occurs twice. *)
Theorem loadDB_idempotent w :
  mu w = false ->
  sameKeys w -> wellKeyed w ->
  yamlUnmarshal (default emptyData (content (disk w))) = inr (programs w) ->
  exists r, loadDB emptyData yamlUnmarshal w = Done r w /\ (NoDup (names w) -> r = None).
Proof.
  intros Hmu Hs Hw Hy.
  pose proof (sameKeys_names w Hs) as Hk.
  assert (Hk' : forall k, k ∈ names w -> is_Some (pgMap w !! k)) by (intros k; apply Hk).
  pose proof (programs_names w Hk' Hw) as Hnames.
  destruct (firstDuplicate ∅ (programs w)) as [name|] eqn:Hd.
  - exists (Some ("Duplicated program name: " +:+ name)). split.
    + apply loadDB_rejected; [exact Hmu|]. unfold parsedConfig. by rewrite Hy, Hd.
    + intros Hnd. exfalso.
      assert (firstDuplicate ∅ (programs w) = None) as Hn; [|congruence].
      apply firstDuplicate_None. rewrite Hnames. split; [exact Hnd|].
      intros n _. apply not_elem_of_empty.
  - exists None. split; [|reflexivity].
    rewrite (loadDB_accepted w (programs w)); [|exact Hmu|unfold parsedConfig; by rewrite Hy, Hd].
    destruct (addLoop_unchanged (programs w) ∅ [] (set_mu true w)) as [vn Hvn].
    { intros pg Hpg. simpl. by apply programs_stored. }
    rewrite Hvn. apply addLoop_result in Hvn as [Hn Hv].
    rewrite deleteLoop_unchanged.
    + rewrite Hn, Hnames. simpl. f_equal. destruct w; simpl in *. by subst.
    + simpl. intros k pg Hpg. apply Hv. right. rewrite Hnames.
      apply Hk. rewrite <- (Hw _ _ Hpg) in Hpg. eauto.
Qed.

(** Where the invariant of the registry does hold after [loadDB]: when
    every entry of the configuration passes [Check] or is registered
    already, a [loadDB] that returns leaves a registry whose name sequence
    is the names of the configuration and whose two maps have exactly
    these names as keys. *)
Lemma loadDB_sameKeys w pgs r w' :
  mu w = false ->
  dom (pgMap w) = dom (procMap w) -> wellKeyed w ->
  parsedConfig emptyData yamlUnmarshal w = inr pgs ->
  (forall pg, pg ∈ pgs -> Check pg = None \/ Name pg ∈ dom (pgMap w)) ->
  loadDB emptyData yamlUnmarshal w = Done r w' ->
  r = None /\ names w' = Name <$> pgs /\ sameKeys w' /\ wellKeyed w'.
Proof.
  intros Hmu Hd Hw Hp Hall. rewrite (loadDB_accepted w pgs Hmu Hp).
  destruct (addLoop pgs ∅ [] (set_mu true w)) as [vn w1| |] eqn:Ha; [|discriminate..].
  destruct (addLoop_result _ _ _ _ _ _ Ha) as [Hns Hvis]. simpl in Hns.
  apply addLoop_done in Ha as (Hd1 & Hw1 & Hsub & Hin); [|exact Hd|exact Hw].
  simpl in Hsub.
  destruct (deleteLoop _ _ _) as [u w2| |] eqn:Hdel; [|discriminate..].
  intros [= <- <-].
  apply deleteLoop_done in Hdel as (Hn & Hpg & Hpr); [|exact Hw1].
  simpl in Hn, Hpg, Hpr.
  assert (Hvis' : forall k, k ∈ vn.1 <-> k ∈ Name <$> pgs).
  { intros k. rewrite Hvis. split; [intros [H|H]; [by apply not_elem_of_empty in H|done]|auto]. }
  assert (Hreg : forall k, k ∈ Name <$> pgs -> is_Some (pgMap w1 !! k)).
  { intros k Hk. apply list_elem_of_fmap in Hk as (pg & -> & Hpg').
    apply elem_of_dom. destruct (Hall pg Hpg') as [Hc|Hc]; [by apply Hin|by apply Hsub]. }
  assert (Hpg2 : forall k, is_Some (pgMap w2 !! k) <-> k ∈ Name <$> pgs).
  { intros k. simpl. rewrite Hpg. case_decide as Hc.
    - split; [intros [? ?]; discriminate|]. intros Hk. exfalso. apply Hc, Hvis', Hk.
    - split; [|apply Hreg]. intros Hk. apply Hvis'.
      destruct (decide (k ∈ vn.1)); [done|]. exfalso. apply Hc.
      split; [by apply elem_of_rangeKeys|done]. }
  assert (Hpr2 : forall k, is_Some (procMap w2 !! k) <-> k ∈ Name <$> pgs).
  { intros k. simpl. rewrite Hpr. case_decide as Hc.
    - split; [intros [? ?]; discriminate|]. intros Hk. exfalso. apply Hc, Hvis', Hk.
    - rewrite <- (elem_of_dom (procMap w1)), <- Hd1, elem_of_dom.
      split; [|apply Hreg]. intros Hk. apply Hvis'.
      destruct (decide (k ∈ vn.1)); [done|]. exfalso. apply Hc.
      split; [by apply elem_of_rangeKeys|done]. }
  split; [reflexivity|]. simpl. rewrite Hn, Hns. simpl. split; [reflexivity|]. split.
  - unfold sameKeys. simpl. rewrite Hn, Hns. simpl. split; apply set_eq; intros k.
    + rewrite elem_of_list_to_set, elem_of_dom. symmetry. apply Hpg2.
    + rewrite !elem_of_dom. simpl. by rewrite Hpg2, Hpr2.
  - unfold wellKeyed. simpl. intros k pg Hk. rewrite Hpg in Hk.
    case_decide; [discriminate|]. by apply Hw1.
Qed.

Lemma loadDB_names w pgs r w' :
  mu w = false ->
  parsedConfig emptyData yamlUnmarshal w = inr pgs ->
  loadDB emptyData yamlUnmarshal w = Done r w' ->
  names w' = Name <$> pgs.
Proof.
  intros Hmu Hp. rewrite (loadDB_accepted w pgs Hmu Hp).
  destruct (addLoop pgs ∅ [] (set_mu true w)) as [vn w1| |] eqn:Ha; [|discriminate..].
  apply addLoop_result in Ha as [Hns _]. simpl in Hns.
  pose proof (deleteLoop_names (rangeKeys (pgMap w1)) vn.1 (set_names vn.2 w1)) as Hn.
  destruct (deleteLoop _ _ _) as [u w2| |]; [|discriminate..].
  intros [= <- <-]. simpl in *. by rewrite Hn, Hns.
Qed.

End Loading.

(** ** [saveDB] *)

Section Saving.

Context {Data : Type}.
Variable yamlMarshal : list Program -> string + Data.

Implicit Types (w : World (Data := Data)).

Lemma saveDB_unlocked w :
  mu w = false ->
  saveDB yamlMarshal w =
    match yamlMarshal (programs w) with
    | inl err => Done (Some err) w
    | inr data =>
        if writable (disk w) then Done None (set_disk (mkDisk (Some data) true) w)
        else Done (Some "write programs.yml: permission denied") w
    end.
Proof.
  intros Hmu. unfold saveDB, bind at 1, Lock, defer. rewrite Hmu.
  unfold bind at 1, gets.
  change (programs (set_mu true w)) with (programs w).
  destruct (yamlMarshal (programs w)) as [err|data]; simpl.
  - unfold bind, Unlock, modify, ret. by rewrite unlock_after_lock.
  - unfold WriteFile. simpl. destruct (writable (disk w)); simpl;
      unfold bind, Unlock, modify, ret; [|by rewrite unlock_after_lock].
    f_equal. destruct w; simpl in *. by subst.
Qed.

Lemma saveDB_locked w : mu w = true -> saveDB yamlMarshal w = Blocked w.
Proof. intros Hmu. unfold saveDB, bind, Lock. by rewrite Hmu. Qed.

(** C8: [saveDB] leaves the name sequence, the spec map and the
    controller map as they are, whatever its outcome; with the mutex free
    it returns; and when it returns [nil], the file holds the
    serialization of the stored specs taken in the order of the name
    sequence. *)
Theorem saveDB_frame w :
  registry (finalWorld (saveDB yamlMarshal w)) = registry w /\
  (mu w = false -> exists r w', saveDB yamlMarshal w = Done r w') /\
  (forall w', saveDB yamlMarshal w = Done None w' ->
     exists data,
       yamlMarshal ((fun name => default zeroProgram (pgMap w !! name)) <$> names w) = inr data /\
       content (disk w') = Some data).
Proof.
  destruct (mu w) eqn:Hmu.
  - rewrite saveDB_locked by exact Hmu. split; [reflexivity|]. split; discriminate.
  - rewrite saveDB_unlocked by exact Hmu. fold (programs w).
    destruct (yamlMarshal (programs w)) as [err|data].
    + split; [reflexivity|]. split; [by eauto|discriminate].
    + destruct (writable (disk w)).
      * split; [reflexivity|]. split; [by eauto|].
        intros w' [= <-]. by exists data.
      * split; [reflexivity|]. split; [by eauto|discriminate].
Qed.

End Saving.

(** ** Failures of the file *)

Section Persistence.

Context {Data : Type}.
Variable emptyData : Data.
Variable yamlUnmarshal : Data -> string + list Program.
Variable yamlMarshal : list Program -> string + Data.

Implicit Types (w : World (Data := Data)).

(** C6 (amended): when writing the file fails during [saveDB], the error
    is returned and the world is as it was.  When reading the file fails
    during [loadDB], no error is returned: the file is taken to be empty,
    so that (the empty document holding no entry) a [loadDB] that returns
    returns [nil], having replaced the name sequence by the empty one and
    deleted every stored spec. *)
Theorem persistence_failures w :
  mu w = false ->
  (forall data, yamlMarshal (programs w) = inr data -> writable (disk w) = false ->
     exists err, saveDB yamlMarshal w = Done (Some err) w) /\
  (content (disk w) = None -> yamlUnmarshal emptyData = inr [] -> wellKeyed w ->
     forall r w', loadDB emptyData yamlUnmarshal w = Done r w' ->
       r = None /\ names w' = [] /\ pgMap w' = ∅).
Proof.
  intros Hmu. split.
  - intros data Hm Hwr. rewrite saveDB_unlocked by exact Hmu. rewrite Hm, Hwr. eauto.
  - intros Hc Hy Hw r w'.
    assert (Hp : parsedConfig emptyData yamlUnmarshal w = inr []).
    { unfold parsedConfig. rewrite Hc. simpl. by rewrite Hy. }
    rewrite (loadDB_accepted _ _ w [] Hmu Hp). simpl.
    destruct (deleteLoop _ _ _) as [u w2| |] eqn:Hdel; [|discriminate..].
    intros [= <- <-].
    apply deleteLoop_done in Hdel as (Hn & Hpg & _); [|exact Hw].
    simpl in Hn, Hpg. split; [reflexivity|]. split; [exact Hn|].
    simpl. apply map_empty. intros k. rewrite Hpg. case_decide as Hk; [reflexivity|].
    destruct (pgMap w !! k) as [pg|] eqn:Hl; [|reflexivity].
    exfalso. apply Hk. split; [apply elem_of_rangeKeys; eauto|apply not_elem_of_empty].
Qed.

End Persistence.


(** * More of the registry *)

Section Reconciling.

Context {Data : Type}.

Implicit Types (w : World (Data := Data)) (pg : Program) (p : Process) (l : loc).

(** ** [addOrUpdateProgram], case by case *)

(** The three things that [addOrUpdateProgram] can do when it returns:
    nothing, start the goroutine of an update, or add an entry. *)
Lemma addOrUpdateProgram_cases pg w r w' :
  addOrUpdateProgram pg w = Done r w' ->
  (w' = w /\ r = Check pg /\ (r = None -> pgMap w !! Name pg = Some pg)) \/
  (r = None /\ Check pg = None /\
   exists origPg l p,
     pgMap w !! Name pg = Some origPg /\ origPg <> pg /\
     procMap w !! Name pg = Some l /\ heap w !! l = Some p /\
     w' = set_goroutines (goroutines w ++ [mkTask l pg (IsRunning p)])
            (set_trace (trace w ++ [Broadcast (Name pg +:+ " update")]) w)) \/
  (r = None /\ Check pg = None /\ pgMap w !! Name pg = None /\
   w' = set_trace (trace w ++ [Broadcast (Name pg +:+ " added")])
          (set_procMap (<[Name pg := length (heap w)]> (procMap w))
             (set_heap (heap w ++ [NewProcess pg])
                (set_pgMap (<[Name pg := pg]> (pgMap w))
                   (set_names (names w ++ [Name pg]) w))))).
Proof.
  unfold addOrUpdateProgram. destruct (Check pg) as [err|] eqn:Hc.
  - intros [= <- <-]. left. split; [reflexivity|]. split; [reflexivity|discriminate].
  - unfold bind at 1, gets at 1. destruct (pgMap w !! Name pg) as [origPg|] eqn:Hpg.
    + destruct (decide (origPg = pg)) as [->|Hne].
      * intros [= <- <-]. left. auto.
      * unfold bind at 1, broadcastEvent, modify at 1. unfold bind at 1, gets at 1.
        unfold bind at 1, deref. simpl.
        destruct (procMap w !! Name pg) as [l|] eqn:Hl; simpl; [|discriminate].
        destruct (heap w !! l) as [p|] eqn:Hp; simpl; [|discriminate].
        intros [= <- <-]. right. left. split; [reflexivity|]. split; [reflexivity|].
        exists origPg, l, p. auto.
    + intros [= <- <-]. right. right. auto.
Qed.

(** X11: a spec that passes [Check] and whose name is free is listed last:
    [programs] and [procs] grow by the spec and by a fresh controller,
    which is the Stopped controller of the spec; the event
    "<name> added" is broadcast; the controllers that were there are as
    they were. *)
Theorem addOrUpdateProgram_appends w pg :
  Check pg = None -> pgMap w !! Name pg = None -> Name pg ∉ names w ->
  exists w',
    addOrUpdateProgram pg w = Done None w' /\
    programs w' = programs w ++ [pg] /\
    procs w' = procs w ++ [Some (length (heap w))] /\
    heap w' = heap w ++ [NewProcess pg] /\
    eventB w' = eventB w ++ [Name pg +:+ " added"] /\
    goroutines w' = goroutines w.
Proof.
  intros Hc Hpg Hn. eexists. split.
  - unfold addOrUpdateProgram. rewrite Hc. unfold bind at 1, gets at 1. rewrite Hpg.
    reflexivity.
  - simpl. unfold programs, procs, eventB. simpl.
    rewrite !fmap_app, omap_app. simpl. rewrite !lookup_insert_eq. simpl.
    repeat split; try reflexivity; f_equal;
      apply list_fmap_ext; intros i k Hk;
      rewrite lookup_insert_ne; try reflexivity;
      intros <-; apply Hn; eapply list_elem_of_lookup_2; exact Hk.
Qed.

(** X12: [addOrUpdateProgram] keeps the invariant of the registry. *)
Theorem addOrUpdateProgram_keeps_invariant w pg r w' :
  sameKeys w -> wellKeyed w ->
  addOrUpdateProgram pg w = Done r w' ->
  sameKeys w' /\ wellKeyed w'.
Proof.
  intros [Hs1 Hs2] Hw Ha.
  apply addOrUpdateProgram_cases in Ha
    as [(-> & _ & _)|[(_ & _ & origPg & l & p & _ & _ & _ & _ & ->)|(_ & _ & Hpg & ->)]].
  - by split.
  - by split.
  - split.
    + unfold sameKeys. simpl. rewrite list_to_set_app_L, !dom_insert_L, Hs1, Hs2. simpl.
      split; [|reflexivity]. set_solver.
    + unfold wellKeyed. simpl. apply map_Forall_insert; [exact Hpg|]. by split.
Qed.

(** X13: what [addOrUpdateProgram] never does itself: it never replaces or
    removes a stored spec or a registered controller, never changes a
    controller, never gives an event to one, and never takes a name out of
    the name sequence. *)
Theorem addOrUpdateProgram_frame w pg r w' :
  addOrUpdateProgram pg w = Done r w' ->
  (forall k x, pgMap w !! k = Some x -> pgMap w' !! k = Some x) /\
  (forall k l, procMap w !! k = Some l -> pgMap w !! k <> None -> procMap w' !! k = Some l) /\
  (forall l p, heap w !! l = Some p -> heap w' !! l = Some p) /\
  operated w' = operated w /\
  names w `prefix_of` names w'.
Proof.
  intros Ha.
  apply addOrUpdateProgram_cases in Ha
    as [(-> & _ & _)|[(_ & _ & origPg & l & p & _ & _ & _ & _ & ->)|(_ & _ & Hpg & ->)]].
  - repeat split; auto.
  - repeat split; auto. unfold operated. simpl. rewrite omap_app. simpl. by rewrite app_nil_r.
  - simpl. split; [|split; [|split; [|split]]].
    + intros k x Hk. rewrite lookup_insert_ne; [exact Hk|]. intros <-. congruence.
    + intros k l Hk Hne. rewrite lookup_insert_ne; [exact Hk|]. intros <-. congruence.
    + intros l p Hl. by apply lookup_app_l_Some.
    + unfold operated. simpl. rewrite omap_app. simpl. by rewrite app_nil_r.
    + by apply prefix_app_r.
Qed.

(** ** What the environment and the loops leave alone *)

Lemma fsmStep_program p t p' : fsmStep p t = Some p' -> program p' = program p.
Proof.
  unfold fsmStep, afterFailure.
  destruct (state p), t as [[]| | | | |]; try discriminate; by intros [= <-].
Qed.

Lemma envStep_background w s : background (envStep w s) = background w.
Proof.
  unfold background. f_equal.
  - rewrite heap_envStep. destruct s as [l t]. simpl.
    destruct (heap w !! l) as [q|] eqn:Hq; [|reflexivity].
    destruct (fsmStep q t) as [q'|] eqn:Hf; [|reflexivity].
    rewrite list_fmap_insert, (fsmStep_program _ _ _ Hf).
    apply list_insert_id. rewrite list_lookup_fmap. exact (f_equal (fmap program) Hq).
  - unfold envStep, deliver. destruct s as [l t]. simpl.
    destruct t, (heap w !! l) as [q|]; simpl; try reflexivity;
      destruct (fsmStep q _); reflexivity.
Qed.

Lemma foldl_envStep_background k w : background (foldl envStep w k) = background w.
Proof.
  revert w. induction k as [|s k IH]; intros w; simpl; [done|].
  by rewrite IH, envStep_background.
Qed.

Lemma waitLoop_background l ks w :
  background (finalWorld (waitLoop l ks w)) = background w.
Proof.
  revert w. induction ks as [|k ks IH]; intros w; simpl; [done|].
  destruct (heap (foldl envStep w k) !! l) as [p|]; simpl;
    [|apply foldl_envStep_background].
  destruct (IsRunning p); simpl; [rewrite IH|]; apply foldl_envStep_background.
Qed.

Lemma stopAndWait_background name w :
  background (finalWorld (stopAndWait name w)) = background w.
Proof.
  unfold stopAndWait.
  destruct (procMap w !! name) as [l|]; [|done].
  destruct (heap w !! l) as [p|] eqn:Hl; [|done].
  destruct (IsRunning p); simpl; [|done].
  unfold bind, addStatusChangeListener, modify, Operate. simpl. rewrite Hl.
  rewrite waitLoop_background.
  pose proof (envStep_background (set_trace (trace w ++ [Listening]) w)
                (l, OnEvent StopEvent)) as Hb.
  unfold envStep in Hb. simpl in Hb. rewrite Hl in Hb. exact Hb.
Qed.

Lemma deleteLoop_background keys visited w :
  background (finalWorld (deleteLoop keys visited w)) = background w.
Proof.
  revert w. induction keys as [|k0 keys IH]; intros w; simpl; [done|].
  unfold bind at 1, gets. destruct (pgMap w !! k0) as [pg|]; [|apply IH].
  destruct (decide (Name pg ∈ visited)); [apply IH|].
  unfold bind at 1.
  pose proof (stopAndWait_background (Name pg) w) as Hb.
  destruct (stopAndWait (Name pg) w) as [e wm| |]; simpl in *; [|done..].
  unfold bind at 1, modify at 1. unfold bind at 1, modify at 1.
  unfold bind at 1, broadcastEvent, modify at 1.
  rewrite IH. exact Hb.
Qed.

(** ** The first loop of [loadDB], entry by entry *)

Lemma addOrUpdateProgram_persist pg w r w' :
  addOrUpdateProgram pg w = Done r w' ->
  (forall k x, pgMap w !! k = Some x -> pgMap w' !! k = Some x) /\
  (forall k l, procMap w !! k = Some l -> is_Some (pgMap w !! k) -> procMap w' !! k = Some l) /\
  heap w `prefix_of` heap w'.
Proof.
  intros Ha.
  apply addOrUpdateProgram_cases in Ha
    as [(-> & _ & _)|[(_ & _ & origPg & l & p & _ & _ & _ & _ & ->)|(_ & _ & Hpg & ->)]];
    [done|done|].
  simpl. split; [|split].
  - intros k x Hk. rewrite lookup_insert_ne; [exact Hk|]. intros <-. congruence.
  - intros k l Hk [x Hx]. rewrite lookup_insert_ne; [exact Hk|]. intros <-. congruence.
  - by apply prefix_app_r.
Qed.

Lemma addLoop_persist pgs visited ns w r w1 :
  addLoop pgs visited ns w = Done r w1 ->
  (forall k x, pgMap w !! k = Some x -> pgMap w1 !! k = Some x) /\
  (forall k l, procMap w !! k = Some l -> is_Some (pgMap w !! k) -> procMap w1 !! k = Some l) /\
  heap w `prefix_of` heap w1.
Proof.
  revert visited ns w. induction pgs as [|pg pgs IH]; intros visited ns w; simpl.
  - intros [= <- <-]. done.
  - unfold bind at 1.
    destruct (addOrUpdateProgram pg w) as [e w0| |] eqn:Ha; [|discriminate..].
    intros Hl. apply addOrUpdateProgram_persist in Ha as (Hpg0 & Hpr0 & Hh0).
    apply IH in Hl as (Hpg1 & Hpr1 & Hh1). split; [|split].
    + auto.
    + intros k l Hk [x Hx]. apply Hpr1; eauto.
    + by etrans.
Qed.

(** An entry that passes [Check] and whose name is free is stored, with
    a new controller. *)
Lemma addLoop_new pgs visited ns w r w1 pg :
  NoDup (Name <$> pgs) ->
  addLoop pgs visited ns w = Done r w1 ->
  pg ∈ pgs -> Check pg = None -> pgMap w !! Name pg = None ->
  pgMap w1 !! Name pg = Some pg /\
  exists l, procMap w1 !! Name pg = Some l /\ heap w1 !! l = Some (NewProcess pg).
Proof.
  revert visited ns w. induction pgs as [|pg0 pgs IH]; intros visited ns w Hnd; simpl.
  - intros _ Hin. inversion Hin.
  - rewrite fmap_cons in Hnd. apply NoDup_cons in Hnd as [Hn0 Hnd].
    unfold bind at 1.
    destruct (addOrUpdateProgram pg0 w) as [e w0| |] eqn:Ha; [|discriminate..].
    intros Hl Hin Hc Hpg. apply elem_of_cons in Hin as [->|Hin].
    + apply addLoop_persist in Hl as (Hpg1 & Hpr1 & Hh1).
      apply addOrUpdateProgram_cases in Ha
        as [(-> & -> & Hr)|[(_ & _ & origPg & l & p & Ho & _)|(_ & _ & _ & ->)]].
      * specialize (Hr Hc). congruence.
      * congruence.
      * split; [apply Hpg1; simpl; apply lookup_insert_eq|].
        exists (length (heap w)). split.
        -- apply Hpr1; simpl; rewrite lookup_insert_eq; eauto.
        -- eapply prefix_lookup_Some; [|exact Hh1]. simpl.
           rewrite lookup_app_r, Nat.sub_diag by reflexivity. reflexivity.
    + eapply IH; eauto.
      assert (Hne : Name pg0 <> Name pg).
      { intros Heq. apply Hn0. rewrite Heq. apply list_elem_of_fmap. eauto. }
      apply addOrUpdateProgram_cases in Ha
        as [(-> & _ & _)|[(_ & _ & origPg & l & p & _ & _ & _ & _ & ->)|(_ & _ & _ & ->)]];
        [done|done|].
      simpl. by rewrite lookup_insert_ne.
Qed.

(** ** The goroutine of an update *)

Lemma deliver_registry_background l t w :
  registry (deliver l t w) = registry w /\ goroutines (deliver l t w) = goroutines w.
Proof.
  unfold deliver. destruct (heap w !! l) as [p|]; [destruct (fsmStep p t)|]; done.
Qed.

(** What the goroutine has done to the registry when it is over. *)
Lemma updateBody_registry t w r w' :
  updateBody t w = Done r w' ->
  names w' = names w /\
  pgMap w' = <[Name (taskPg t) := taskPg t]> (pgMap w) /\
  (exists l', procMap w' = <[Name (taskPg t) := l']> (procMap w)) /\
  goroutines w' = goroutines w.
Proof.
  unfold updateBody, bind at 1, gets.
  destruct (heap w !! origProc t) as [p|]; [|discriminate].
  unfold bind at 1.
  pose proof (stopAndWait_registry (Name (program p)) w) as Hreg.
  pose proof (stopAndWait_background (Name (program p)) w) as Hbg.
  destruct (stopAndWait (Name (program p)) w) as [e wm| |]; [|discriminate..].
  simpl in Hreg, Hbg. injection Hreg as Hn Hpg Hpr. injection Hbg as _ Hg.
  unfold bind at 1, newProcess. unfold bind at 1, modify at 1. unfold bind at 1, modify at 1.
  destruct (isRunning t).
  - unfold Operate. simpl. rewrite lookup_app_r, Nat.sub_diag by reflexivity. simpl.
    intros [= <- <-].
    match goal with |- context [deliver ?l ?tr ?w0] =>
      destruct (deliver_registry_background l tr w0) as [Hr1 Hg1] end.
    injection Hr1 as -> -> ->. rewrite Hg1. simpl. rewrite Hn, Hpg, Hpr, Hg. eauto.
  - intros [= <- <-]. simpl. rewrite Hn, Hpg, Hpr, Hg. eauto.
Qed.

Lemma updateBody_keeps_invariant_aux t w w' :
  sameKeys w -> wellKeyed w -> Name (taskPg t) ∈ names w ->
  updateBody t w = Done tt w' ->
  sameKeys w' /\ wellKeyed w'.
Proof.
  intros Hs Hw Hin Hu.
  apply updateBody_registry in Hu as (Hn & Hpg & [l' Hpr] & _).
  assert (Hd : Name (taskPg t) ∈ dom (pgMap w)).
  { apply elem_of_dom. by apply (sameKeys_names w Hs). }
  destruct Hs as [Hs1 Hs2]. split.
  - unfold sameKeys. rewrite Hn, Hpg, Hpr, !dom_insert_L, <- Hs2, Hs1.
    split; [|reflexivity]. set_solver.
  - unfold wellKeyed. rewrite Hpg. by apply map_Forall_insert_2.
Qed.

(** X14: the goroutine of an update keeps the invariant of the registry,
    as long as the name it updates is still in the name sequence when it
    runs; whatever the registry, it leaves the new spec stored under its
    name and the name sequence as it was. *)
Theorem updateBody_keeps_invariant t w w' :
  updateBody t w = Done tt w' ->
  pgMap w' !! Name (taskPg t) = Some (taskPg t) /\
  names w' = names w /\
  (sameKeys w -> wellKeyed w -> Name (taskPg t) ∈ names w -> sameKeys w' /\ wellKeyed w').
Proof.
  intros Hu. pose proof (updateBody_registry _ _ _ _ Hu) as (Hn & Hpg & _ & _).
  split; [rewrite Hpg; apply lookup_insert_eq|]. split; [exact Hn|].
  intros Hs Hw Hin. by apply (updateBody_keeps_invariant_aux t w).
Qed.

(** ** All of a reconciliation *)

Lemma addOrUpdateProgram_tasks pg w r w' :
  addOrUpdateProgram pg w = Done r w' ->
  (Check pg = None ->
     pgMap w' !! Name pg = Some pg \/ exists t, t ∈ goroutines w' /\ taskPg t = pg) /\
  (forall t, t ∈ goroutines w' -> t ∈ goroutines w \/ taskPg t = pg) /\
  goroutines w `prefix_of` goroutines w'.
Proof.
  intros Ha.
  apply addOrUpdateProgram_cases in Ha
    as [(-> & -> & Hr)|[(_ & _ & origPg & l & p & _ & _ & _ & _ & ->)|(_ & _ & _ & ->)]].
  - split; [auto|]. split; [auto|done].
  - simpl. split; [|split].
    + intros _. right. eexists. split; [apply elem_of_app; right; by left|reflexivity].
    + intros t Ht. apply elem_of_app in Ht as [Ht|Ht]; [by left|].
      apply list_elem_of_singleton in Ht as ->. by right.
    + by apply prefix_app_r.
  - simpl. split; [|split; [auto|done]].
    intros _. left. apply lookup_insert_eq.
Qed.

Lemma addLoop_tasks pgs visited ns w r w1 :
  addLoop pgs visited ns w = Done r w1 ->
  (forall pg, pg ∈ pgs -> Check pg = None ->
     pgMap w1 !! Name pg = Some pg \/ exists t, t ∈ goroutines w1 /\ taskPg t = pg) /\
  (forall t, t ∈ goroutines w1 -> t ∈ goroutines w \/ taskPg t ∈ pgs) /\
  goroutines w `prefix_of` goroutines w1.
Proof.
  revert visited ns w. induction pgs as [|pg0 pgs IH]; intros visited ns w; simpl.
  - intros [= <- <-]. split; [|split; [auto|done]]. intros pg H. inversion H.
  - unfold bind at 1.
    destruct (addOrUpdateProgram pg0 w) as [e w0| |] eqn:Ha; [|discriminate..].
    intros Hl. apply addOrUpdateProgram_tasks in Ha as (Hst0 & Hts0 & Hpre0).
    pose proof (addLoop_persist _ _ _ _ _ _ Hl) as (Hpers & _ & _).
    apply IH in Hl as (Hst1 & Hts1 & Hpre1). split; [|split].
    + intros pg Hin Hc. apply elem_of_cons in Hin as [->|Hin]; [|by apply Hst1].
      destruct (Hst0 Hc) as [Hs|(t & Ht & Htp)]; [left; by apply Hpers|].
      right. exists t. split; [|exact Htp].
      eapply elem_of_prefix; [exact Ht|exact Hpre1].
    + intros t Ht. destruct (Hts1 t Ht) as [Ht0|Ht0]; [|right; by right].
      destruct (Hts0 t Ht0) as [?|<-]; [by left|right; by left].
    + by etrans.
Qed.

(** The first loop of [loadDB] on entries that are all new and pass
    [Check]: one controller after the other, nothing else. *)
Lemma addLoop_fresh pgs visited ns w :
  (forall pg, pg ∈ pgs -> Check pg = None) ->
  NoDup (Name <$> pgs) ->
  (forall pg, pg ∈ pgs -> pgMap w !! Name pg = None) ->
  exists vn w1,
    addLoop pgs visited ns w = Done vn w1 /\
    names w1 = names w ++ (Name <$> pgs) /\
    heap w1 = heap w ++ (NewProcess <$> pgs) /\
    trace w1 = trace w ++ ((fun pg => Broadcast (Name pg +:+ " added")) <$> pgs) /\
    goroutines w1 = goroutines w /\ sched w1 = sched w /\ mu w1 = mu w /\
    disk w1 = disk w /\
    (forall i pg, pgs !! i = Some pg ->
       pgMap w1 !! Name pg = Some pg /\ procMap w1 !! Name pg = Some (length (heap w) + i)) /\
    (forall k, k ∉ Name <$> pgs ->
       pgMap w1 !! k = pgMap w !! k /\ procMap w1 !! k = procMap w !! k).
Proof.
  revert visited ns w. induction pgs as [|pg pgs IH]; intros visited ns w Hc Hnd Hfree.
  - exists (visited, ns), w. simpl. rewrite !app_nil_r. repeat split; try done.
  - rewrite fmap_cons in Hnd. apply NoDup_cons in Hnd as [Hn0 Hnd].
    simpl. unfold bind at 1, addOrUpdateProgram.
    rewrite (Hc pg) by (by left). unfold bind at 1, gets at 1.
    rewrite (Hfree pg) by (by left).
    unfold bind, modify, newProcess, broadcastEvent, ret. simpl.
    match goal with |- context [addLoop pgs ?v ?n ?w0] =>
      destruct (IH v n w0) as (vn & w1 & Hl & Hnames & Hheap & Htr & Hg & Hsc & Hmu & Hdk & Hin & Hout)
    end.
    { intros pg' Hin. apply Hc. by right. }
    { exact Hnd. }
    { intros pg' Hin. simpl. rewrite lookup_insert_ne; [apply Hfree; by right|].
      intros Heq. apply Hn0. rewrite Heq. apply list_elem_of_fmap. eauto. }
    exists vn, w1. simpl in *. split; [exact Hl|].
    rewrite Hnames, Hheap, Htr, Hg, Hsc, Hmu, Hdk, <- !app_assoc. simpl.
    do 7 (split; [reflexivity|]). split.
    + intros [|i] pg' Hi; simpl in Hi.
      * injection Hi as <-. destruct (Hout (Name pg) Hn0) as [Hpg' Hpr'].
        split; [by rewrite Hpg', lookup_insert_eq|].
        etrans; [exact Hpr'|]. rewrite lookup_insert_eq. f_equal. lia.
      * destruct (Hin i pg' Hi) as [Hpg' Hpr']. split; [exact Hpg'|].
        etrans; [exact Hpr'|]. rewrite length_app. simpl. f_equal. lia.
    + intros k Hk. apply not_elem_of_cons in Hk as [Hne Hk].
      destruct (Hout k Hk) as [Hpg' Hpr']. split.
      * by rewrite Hpg', lookup_insert_ne.
      * etrans; [exact Hpr'|]. by rewrite lookup_insert_ne.
Qed.

Lemma NoDup_fmap_inj_on (pgs : list Program) pg pg' :
  NoDup (Name <$> pgs) -> pg ∈ pgs -> pg' ∈ pgs -> Name pg = Name pg' -> pg = pg'.
Proof.
  intros Hnd Hin Hin' Heq.
  apply list_elem_of_lookup in Hin as [i Hi]. apply list_elem_of_lookup in Hin' as [j Hj].
  assert (i = j) as ->; [|congruence].
  apply (proj1 (NoDup_alt _) Hnd i j (Name pg)); rewrite list_lookup_fmap.
  - by rewrite Hi.
  - by rewrite Hj, Heq.
Qed.

Lemma runTasks_converges pgs ts w r w' :
  NoDup (Name <$> pgs) ->
  (forall t, t ∈ ts -> taskPg t ∈ pgs) ->
  (forall pg, pg ∈ pgs ->
     pgMap w !! Name pg = Some pg \/ exists t, t ∈ ts /\ taskPg t = pg) ->
  sameKeys w -> wellKeyed w -> names w = Name <$> pgs ->
  runTasks ts w = Done r w' ->
  (forall pg, pg ∈ pgs -> pgMap w' !! Name pg = Some pg) /\
  sameKeys w' /\ wellKeyed w' /\ names w' = Name <$> pgs.
Proof.
  intros Hnd. revert w. induction ts as [|t ts IH]; intros w Hts Hst Hs Hw Hn; simpl.
  - intros [= <- <-]. split; [|done]. intros pg Hin.
    destruct (Hst pg Hin) as [?|(t & Ht & _)]; [done|inversion Ht].
  - unfold bind at 1. destruct (updateBody t w) as [[] w0| |] eqn:Hu; [|discriminate..].
    assert (Hin : Name (taskPg t) ∈ names w).
    { rewrite Hn. apply list_elem_of_fmap. exists (taskPg t). split; [done|].
      apply Hts. by left. }
    destruct (updateBody_keeps_invariant_aux t w w0 Hs Hw Hin Hu) as [Hs0 Hw0].
    apply updateBody_registry in Hu as (Hn0 & Hpg0 & _ & _).
    apply IH; try done.
    + intros t' Ht'. apply Hts. by right.
    + intros pg Hpg. rewrite Hpg0.
      destruct (decide (Name pg = Name (taskPg t))) as [Heq|Hne].
      * left. assert (pg = taskPg t) as ->.
        { apply (NoDup_fmap_inj_on pgs); try done. apply Hts. by left. }
        apply lookup_insert_eq.
      * rewrite lookup_insert_ne by congruence.
        destruct (Hst pg Hpg) as [?|(t' & Ht' & Htp)]; [by left|].
        apply elem_of_cons in Ht' as [->|Ht']; [congruence|]. right. eauto.
    + by rewrite Hn0.
Qed.

End Reconciling.

Section Reloading.

Context {Data : Type}.
Variable emptyData : Data.
Variable yamlUnmarshal : Data -> string + list Program.

Implicit Types (w : World (Data := Data)) (pg : Program).

Lemma parsedConfig_distinct w pgs :
  yamlUnmarshal (default emptyData (content (disk w))) = inr pgs ->
  NoDup (Name <$> pgs) ->
  parsedConfig emptyData yamlUnmarshal w = inr pgs.
Proof.
  intros Hy Hnd. unfold parsedConfig. rewrite Hy.
  assert (firstDuplicate ∅ pgs = None) as ->; [|reflexivity].
  apply firstDuplicate_None. split; [exact Hnd|]. intros n _. apply not_elem_of_empty.
Qed.

(** ** [readConfigFromDB] *)

Lemma firstDuplicate_repeat pre a post visited :
  NoDup (Name <$> pre) ->
  (forall n, n ∈ Name <$> pre -> n ∉ visited) ->
  Name a ∈ visited \/ Name a ∈ Name <$> pre ->
  firstDuplicate visited (pre ++ a :: post) = Some (Name a).
Proof.
  revert visited. induction pre as [|b pre IH]; intros visited Hnd Hv Ha; simpl.
  - destruct Ha as [Ha|Ha]; [|inversion Ha]. by rewrite decide_True.
  - rewrite fmap_cons in Hnd. apply NoDup_cons in Hnd as [Hb Hnd].
    rewrite decide_False by (apply Hv; by left).
    apply IH; [exact Hnd| |].
    + intros n Hn Hu. apply elem_of_union in Hu as [Hu|Hu].
      * apply elem_of_singleton in Hu as ->. contradiction.
      * apply (Hv n); [by right|exact Hu].
    + destruct Ha as [Ha|Ha]; [left; apply elem_of_union; by right|].
      apply elem_of_cons in Ha as [->|Ha]; [|by right].
      left. apply elem_of_union. left. by apply elem_of_singleton.
Qed.

(** X8: [readConfigFromDB] never changes anything, and it returns a list
    of programs exactly when the file (the empty data, when the file
    cannot be read) parses to that list and no two entries have the same
    name. *)
Theorem readConfigFromDB_accepts w :
  finalWorld (readConfigFromDB emptyData yamlUnmarshal w) = w /\
  forall pgs,
    readConfigFromDB emptyData yamlUnmarshal w = Done (inr pgs) w <->
    yamlUnmarshal (default emptyData (content (disk w))) = inr pgs /\ NoDup (Name <$> pgs).
Proof.
  rewrite readConfigFromDB_eq. split; [reflexivity|]. intros pgs. unfold parsedConfig. split.
  - intros [= H].
    destruct (yamlUnmarshal _) as [e|pgs']; [discriminate|].
    destruct (firstDuplicate ∅ pgs') as [n|] eqn:Hd; [discriminate|].
    injection H as ->. split; [reflexivity|]. by apply firstDuplicate_None in Hd as [Hnd _].
  - intros [-> Hnd].
    assert (firstDuplicate ∅ pgs = None) as ->; [|reflexivity].
    apply firstDuplicate_None. split; [exact Hnd|]. intros n _. apply not_elem_of_empty.
Qed.

(** X9: the error of [readConfigFromDB] names the first entry, in the
    order of the file, whose name an earlier entry has. *)
Theorem readConfigFromDB_first_repeat w pre a post :
  yamlUnmarshal (default emptyData (content (disk w))) = inr (pre ++ a :: post) ->
  NoDup (Name <$> pre) -> Name a ∈ Name <$> pre ->
  readConfigFromDB emptyData yamlUnmarshal w =
    Done (inl ("Duplicated program name: " +:+ Name a)) w.
Proof.
  intros Hy Hnd Ha. rewrite readConfigFromDB_eq. unfold parsedConfig. rewrite Hy.
  rewrite (firstDuplicate_repeat pre a post ∅ Hnd); [reflexivity| |by right].
  intros n _. apply not_elem_of_empty.
Qed.

(** X7: a file that does not parse makes [loadDB] return the error of the
    parser, in the world it found. *)
Theorem loadDB_parse_error w err :
  mu w = false ->
  yamlUnmarshal (default emptyData (content (disk w))) = inl err ->
  loadDB emptyData yamlUnmarshal w = Done (Some err) w.
Proof.
  intros Hmu Hy. apply loadDB_rejected; [exact Hmu|]. unfold parsedConfig. by rewrite Hy.
Qed.

(** ** [loadDB], entry by entry *)

(** [loadDB] with the stored specs as configuration. *)
Lemma loadDB_same_config w :
  mu w = false -> sameKeys w -> wellKeyed w -> NoDup (names w) ->
  yamlUnmarshal (default emptyData (content (disk w))) = inr (programs w) ->
  loadDB emptyData yamlUnmarshal w = Done None w.
Proof.
  intros Hmu Hs Hw Hnd Hy.
  pose proof (sameKeys_names w Hs) as Hk.
  assert (Hk' : forall k, k ∈ names w -> is_Some (pgMap w !! k)) by (intros k; apply Hk).
  pose proof (programs_names w Hk' Hw) as Hnames.
  rewrite (loadDB_accepted _ _ w (programs w) Hmu).
  2:{ apply parsedConfig_distinct; [exact Hy|by rewrite Hnames]. }
  destruct (addLoop_unchanged (programs w) ∅ [] (set_mu true w)) as [vn Hvn].
  { intros pg Hpg. simpl. by apply programs_stored. }
  rewrite Hvn. apply addLoop_result in Hvn as [Hn Hv].
  rewrite deleteLoop_unchanged.
  - rewrite Hn, Hnames. simpl. f_equal. destruct w; simpl in *. by subst.
  - simpl. intros k pg Hpg. apply Hv. right. rewrite Hnames.
    apply Hk. rewrite <- (Hw _ _ Hpg) in Hpg. eauto.
Qed.

(** [loadDB] that returns after its two loops. *)
Lemma loadDB_split w pgs r w' :
  mu w = false ->
  yamlUnmarshal (default emptyData (content (disk w))) = inr pgs ->
  NoDup (Name <$> pgs) ->
  loadDB emptyData yamlUnmarshal w = Done r w' ->
  exists vn w1 w2,
    addLoop pgs ∅ [] (set_mu true w) = Done vn w1 /\
    deleteLoop (rangeKeys (pgMap w1)) vn.1 (set_names (Name <$> pgs) w1) = Done tt w2 /\
    w' = set_mu false w2 /\ r = None /\
    forall n, n ∈ vn.1 <-> n ∈ Name <$> pgs.
Proof.
  intros Hmu Hy Hnd.
  rewrite (loadDB_accepted _ _ w pgs Hmu (parsedConfig_distinct w pgs Hy Hnd)).
  destruct (addLoop pgs ∅ [] (set_mu true w)) as [vn w1| |] eqn:Ha; [|discriminate..].
  destruct (addLoop_result _ _ _ _ _ _ Ha) as [Hns Hvis]. simpl in Hns. rewrite Hns.
  destruct (deleteLoop _ _ _) as [[] w2| |] eqn:Hdel; [|discriminate..].
  intros [= <- <-]. exists vn, w1, w2. repeat split; try done.
  - intros Hn. apply Hvis in Hn as [Hn|Hn]; [by apply not_elem_of_empty in Hn|done].
  - intros Hn. apply Hvis. by right.
Qed.

(** X3: after [loadDB], a name that the configuration does not hold has
    neither spec nor controller. *)
Theorem loadDB_removes_absent w pgs r w' k :
  mu w = false ->
  dom (pgMap w) = dom (procMap w) -> wellKeyed w ->
  yamlUnmarshal (default emptyData (content (disk w))) = inr pgs ->
  NoDup (Name <$> pgs) ->
  loadDB emptyData yamlUnmarshal w = Done r w' ->
  k ∉ Name <$> pgs ->
  pgMap w' !! k = None /\ procMap w' !! k = None.
Proof.
  intros Hmu Hd Hw Hy Hnd Hload Hk.
  destruct (loadDB_split w pgs r w' Hmu Hy Hnd Hload) as (vn & w1 & w2 & Ha & Hdel & -> & _ & Hvis).
  apply addLoop_done in Ha as (Hd1 & Hw1 & _ & _); [|exact Hd|exact Hw].
  apply deleteLoop_done in Hdel as (_ & Hpg & Hpr); [|exact Hw1].
  simpl in *. rewrite Hpg, Hpr.
  assert (Hnv : k ∉ vn.1) by (by rewrite Hvis).
  destruct (pgMap w1 !! k) as [x|] eqn:Hx.
  - assert (Hin : k ∈ rangeKeys (pgMap w1)) by (apply elem_of_rangeKeys; eauto).
    rewrite !decide_True; [done|by eauto|done].
  - assert (Hx' : procMap w1 !! k = None).
    { apply not_elem_of_dom. rewrite <- Hd1. by apply not_elem_of_dom. }
    rewrite Hx'. split; case_decide; reflexivity.
Qed.

(** X5: after [loadDB], an entry of the configuration that passes [Check]
    and whose name was free is stored as it is, with a controller of its
    own. *)
Theorem loadDB_registers_new w pgs r w' pg :
  mu w = false ->
  dom (pgMap w) = dom (procMap w) -> wellKeyed w ->
  yamlUnmarshal (default emptyData (content (disk w))) = inr pgs ->
  NoDup (Name <$> pgs) ->
  loadDB emptyData yamlUnmarshal w = Done r w' ->
  pg ∈ pgs -> Check pg = None -> pgMap w !! Name pg = None ->
  pgMap w' !! Name pg = Some pg /\
  exists l p, procMap w' !! Name pg = Some l /\ heap w' !! l = Some p /\ program p = pg.
Proof.
  intros Hmu Hd Hw Hy Hnd Hload Hin Hc Hfree.
  destruct (loadDB_split w pgs r w' Hmu Hy Hnd Hload) as (vn & w1 & w2 & Ha & Hdel & -> & _ & Hvis).
  pose proof (addLoop_new _ _ _ _ _ _ pg Hnd Ha Hin Hc Hfree) as (Hpg1 & l & Hl & Hh).
  apply addLoop_done in Ha as (Hd1 & Hw1 & _ & _); [|exact Hd|exact Hw].
  pose proof (deleteLoop_background (rangeKeys (pgMap w1)) vn.1
                (set_names (Name <$> pgs) w1)) as Hprog.
  rewrite Hdel in Hprog. injection Hprog as Hprog _.
  apply deleteLoop_done in Hdel as (_ & Hpg & Hpr); [|exact Hw1].
  simpl in *. rewrite Hpg, Hpr.
  assert (Hv : Name pg ∈ vn.1) by (rewrite Hvis; apply list_elem_of_fmap; eauto).
  rewrite decide_False by (intros (_ & Hn); by apply Hn).
  rewrite decide_False by (intros (_ & Hn & _); by apply Hn).
  split; [exact Hpg1|].
  assert (Hl2 : (program <$> heap w2) !! l = Some pg).
  { rewrite Hprog, list_lookup_fmap. exact (f_equal (fmap program) Hh). }
  rewrite list_lookup_fmap in Hl2. apply fmap_Some in Hl2 as (p & Hp2 & Hpp).
  exists l, p. auto.
Qed.

(** X2: when every entry of the configuration passes [Check] or is
    registered already, a [loadDB] that returns leaves a registry that
    satisfies its invariant: the names of the name sequence are the keys of
    both maps, and every spec is stored under its own name. *)
Theorem loadDB_restores_invariant w pgs r w' :
  mu w = false ->
  dom (pgMap w) = dom (procMap w) -> wellKeyed w ->
  yamlUnmarshal (default emptyData (content (disk w))) = inr pgs ->
  NoDup (Name <$> pgs) ->
  (forall pg, pg ∈ pgs -> Check pg = None \/ Name pg ∈ dom (pgMap w)) ->
  loadDB emptyData yamlUnmarshal w = Done r w' ->
  r = None /\ sameKeys w' /\ wellKeyed w'.
Proof.
  intros Hmu Hd Hw Hy Hnd Hall Hload.
  destruct (loadDB_sameKeys _ _ w pgs r w' Hmu Hd Hw
              (parsedConfig_distinct w pgs Hy Hnd) Hall Hload) as (? & _ & ? & ?).
  done.
Qed.

(** X6: the name sequence that [loadDB] leaves is the names of all the
    entries of the configuration, in the order of the file. *)
Theorem loadDB_lists_every_name w pgs r w' :
  mu w = false ->
  yamlUnmarshal (default emptyData (content (disk w))) = inr pgs ->
  NoDup (Name <$> pgs) ->
  loadDB emptyData yamlUnmarshal w = Done r w' ->
  r = None /\ names w' = Name <$> pgs.
Proof.
  intros Hmu Hy Hnd Hload.
  destruct (loadDB_split w pgs r w' Hmu Hy Hnd Hload) as (_ & _ & _ & _ & _ & _ & -> & _).
  split; [reflexivity|].
  exact (loadDB_names _ _ w pgs None w' Hmu (parsedConfig_distinct w pgs Hy Hnd) Hload).
Qed.

Lemma programs_of_config w pgs :
  names w = Name <$> pgs ->
  (forall pg, pg ∈ pgs -> pgMap w !! Name pg = Some pg) ->
  programs w = pgs.
Proof.
  intros Hn Hst. unfold programs. rewrite Hn. clear Hn.
  induction pgs as [|pg pgs IH]; [reflexivity|].
  rewrite !fmap_cons, IH by (intros pg' Hin; apply Hst; by right).
  rewrite (Hst pg) by (by left). reflexivity.
Qed.

(** X1: reconciliation reaches the configuration: from a registry with
    its invariant and no goroutine pending, when every entry of the
    configuration passes [Check], [loadDB] followed by the goroutines it
    has started leaves exactly the specs of the configuration, in its
    order, in a registry that satisfies its invariant. *)
Theorem reconcile_converges w pgs w' :
  mu w = false ->
  dom (pgMap w) = dom (procMap w) -> wellKeyed w -> goroutines w = [] ->
  yamlUnmarshal (default emptyData (content (disk w))) = inr pgs ->
  NoDup (Name <$> pgs) ->
  (forall pg, pg ∈ pgs -> Check pg = None) ->
  bind (loadDB emptyData yamlUnmarshal) (fun _ => runGoroutines) w = Done tt w' ->
  programs w' = pgs /\ sameKeys w' /\ wellKeyed w'.
Proof.
  intros Hmu Hd Hw Hg Hy Hnd Hc. unfold bind at 1.
  destruct (loadDB emptyData yamlUnmarshal w) as [r wl| |] eqn:Hload; [|discriminate..].
  destruct (loadDB_sameKeys _ _ w pgs r wl Hmu Hd Hw
              (parsedConfig_distinct w pgs Hy Hnd)) as (_ & Hn & Hs & Hwl); [auto|exact Hload|].
  destruct (loadDB_split w pgs r wl Hmu Hy Hnd Hload)
    as (vn & w1 & w2 & Ha & Hdel & -> & _ & Hvis).
  pose proof (addLoop_tasks _ _ _ _ _ _ Ha) as (Hst & Hts & _).
  apply addLoop_done in Ha as (_ & Hw1 & _ & _); [|exact Hd|exact Hw].
  pose proof (deleteLoop_background (rangeKeys (pgMap w1)) vn.1
                (set_names (Name <$> pgs) w1)) as Hbg.
  rewrite Hdel in Hbg. injection Hbg as _ Hgo. simpl in Hgo.
  apply deleteLoop_done in Hdel as (_ & Hpg & _); [|exact Hw1].
  unfold runGoroutines, bind, gets, modify. simpl. intros Hrun.
  apply (runTasks_converges pgs) in Hrun as (Hall & Hs' & Hw' & Hn'); try done.
  - split; [|done]. by apply programs_of_config.
  - intros t Ht. rewrite Hgo in Ht. destruct (Hts t Ht) as [Ht0|Ht0]; [|exact Ht0].
    simpl in Ht0. rewrite Hg in Ht0. inversion Ht0.
  - intros pg Hin. simpl. rewrite Hpg, Hgo. simpl.
    rewrite decide_False.
    + by apply Hst; [|apply Hc].
    + intros (_ & Hnv). apply Hnv, Hvis, list_elem_of_fmap. eauto.
Qed.

(** ** Start-up *)

(** X18: [newSupervisorHandler] with a configuration whose entries all
    pass [Check]: the first [loadDB] returns [nil] without waiting for
    anything; the programs of the file are registered in the order of the
    file, each with a controller of its own that is Stopped; one event
    "<name> added" per program is broadcast, in that order, and no
    goroutine is started. *)
Theorem newSupervisorHandler_registers d ks pgs :
  yamlUnmarshal (default emptyData (content d)) = inr pgs ->
  NoDup (Name <$> pgs) ->
  (forall pg, pg ∈ pgs -> Check pg = None) ->
  exists w',
    newSupervisorHandler emptyData yamlUnmarshal d ks = Done None w' /\
    programs w' = pgs /\
    procs w' = Some <$> seq 0 (length pgs) /\
    heap w' = NewProcess <$> pgs /\
    eventB w' = (fun pg => Name pg +:+ " added") <$> pgs /\
    goroutines w' = [] /\ sched w' = ks /\ mu w' = false.
Proof.
  intros Hy Hnd Hc. unfold newSupervisorHandler.
  rewrite (loadDB_accepted _ _ (newSupervisor d ks) pgs eq_refl
             (parsedConfig_distinct (newSupervisor d ks) pgs Hy Hnd)).
  destruct (addLoop_fresh pgs ∅ [] (set_mu true (newSupervisor d ks)) Hc Hnd)
    as (vn & w1 & Hl & Hnames & Hheap & Htr & Hg & Hsc & Hmu & Hdk & Hin & Hout);
    [intros pg _; apply lookup_empty|].
  rewrite Hl. destruct (addLoop_result _ _ _ _ _ _ Hl) as [Hvn Hvis]. simpl in *.
  rewrite deleteLoop_unchanged.
  - eexists. split; [reflexivity|]. simpl. rewrite Hheap, Hg, Hsc. simpl.
    split; [|split; [|split; [|split; [|done]]]].
    + apply programs_of_config; [by rewrite Hvn|].
      intros pg Hpg. simpl. apply list_elem_of_lookup in Hpg as [i Hi]. by apply (Hin i).
    + unfold procs. simpl. rewrite Hvn. apply list_eq. intros i.
      rewrite !list_lookup_fmap.
      destruct (pgs !! i) as [pg|] eqn:Hi; simpl.
      * destruct (Hin i pg Hi) as [_ Hpr].
        rewrite lookup_seq_lt by (by eapply lookup_lt_Some). simpl. f_equal. exact Hpr.
      * rewrite lookup_seq_ge by (by apply lookup_ge_None). reflexivity.
    + reflexivity.
    + unfold eventB. simpl. rewrite Htr. simpl. clear.
      induction pgs as [|pg pgs IH]; [reflexivity|].
      rewrite !fmap_cons. simpl. f_equal. exact IH.
  - simpl. intros k x Hk.
    destruct (decide (k ∈ Name <$> pgs)) as [Hin'|Hnin].
    + apply list_elem_of_fmap in Hin' as (pg & -> & Hpg).
      apply list_elem_of_lookup in Hpg as [i Hi].
      destruct (Hin i pg Hi) as [Hst _]. assert (x = pg) as -> by congruence.
      apply Hvis. right. apply list_elem_of_fmap. exists pg. split; [done|].
      by eapply list_elem_of_lookup_2.
    + destruct (Hout k Hnin) as [Hnone _]. rewrite Hnone, lookup_empty in Hk. discriminate.
Qed.

End Reloading.

Section Closing.

Context {Data : Type}.

Implicit Types (w : World (Data := Data)) (p : Process) (l : loc).

(** ** [Close] *)

Lemma stoppedAt_lookup (h : list Process) l :
  stoppedAt h l <-> exists p, h !! l = Some p /\ IsRunning p = false.
Proof.
  unfold stoppedAt. rewrite fmap_Some. split; intros (p & Hp & Hr); by exists p.
Qed.

Lemma ownName_lookup w k l :
  ownName w -> procMap w !! k = Some l ->
  exists p, heap w !! l = Some p /\ Name (program p) = k.
Proof.
  intros Ho Hk. specialize (Ho k l Hk). simpl in Ho.
  apply fmap_Some in Ho as (pg & Hpg & ->). apply fmap_Some in Hpg as (p & Hp & ->).
  by exists p.
Qed.

Lemma fsmStep_stays_down p t p' :
  reviving t = false -> IsRunning p = false -> fsmStep p t = Some p' ->
  IsRunning p' = false.
Proof.
  unfold fsmStep, IsRunning, afterFailure.
  destruct (state p), t as [[]| | | | |]; try discriminate; intros _ _ [= <-]; reflexivity.
Qed.

Lemma envStep_stays_down w s l :
  reviving s.2 = false -> stoppedAt (heap w) l -> stoppedAt (heap (envStep w s)) l.
Proof.
  intros Hs Hst. apply stoppedAt_lookup in Hst as (p & Hl & Hp). apply stoppedAt_lookup.
  rewrite heap_envStep. destruct s as [l' t]. simpl in *.
  destruct (heap w !! l') as [q|] eqn:Hq; [|by exists p].
  destruct (fsmStep q t) as [q'|] eqn:Hf; [|by exists p].
  destruct (decide (l' = l)) as [->|Hne].
  - assert (q = p) as -> by congruence.
    exists q'. split; [|by eapply fsmStep_stays_down].
    apply list_lookup_insert_eq. by eapply lookup_lt_Some.
  - exists p. split; [|exact Hp]. by rewrite list_lookup_insert_ne.
Qed.

Lemma foldl_envStep_stays_down k w l :
  Forall (fun s : loc * Trigger => reviving s.2 = false) k ->
  stoppedAt (heap w) l -> stoppedAt (heap (foldl envStep w k)) l.
Proof.
  revert w. induction k as [|s k IH]; intros w Hk Hl; simpl; [exact Hl|].
  apply Forall_cons in Hk as [Hs Hk]. apply IH; [exact Hk|]. by apply envStep_stays_down.
Qed.

Lemma waitLoop_stays_down l0 ks w l :
  quiet ks -> stoppedAt (heap w) l ->
  stoppedAt (heap (finalWorld (waitLoop l0 ks w))) l.
Proof.
  revert w. induction ks as [|k ks IH]; intros w Hq Hl; simpl; [exact Hl|].
  apply Forall_cons in Hq as [Hk Hq].
  pose proof (foldl_envStep_stays_down k w l Hk Hl) as Hl'.
  destruct (heap (foldl envStep w k) !! l0) as [p|]; simpl; [|done].
  destruct (IsRunning p); simpl; [|done]. by apply IH.
Qed.

Lemma waitLoop_quiet l0 ks w :
  quiet ks -> quiet (sched (finalWorld (waitLoop l0 ks w))).
Proof.
  revert w. induction ks as [|k ks IH]; intros w Hq; simpl; [constructor|].
  apply Forall_cons in Hq as [Hk Hq].
  destruct (heap (foldl envStep w k) !! l0) as [p|]; simpl; [|done].
  destruct (IsRunning p); simpl; [|done]. by apply IH.
Qed.

Lemma stopAndWait_stays_down name w l :
  quiet (sched w) -> stoppedAt (heap w) l ->
  stoppedAt (heap (finalWorld (stopAndWait name w))) l.
Proof.
  intros Hq Hl. unfold stopAndWait.
  destruct (procMap w !! name) as [l0|]; [|done].
  destruct (heap w !! l0) as [p|] eqn:Hl0; [|done].
  destruct (IsRunning p); simpl; [|done].
  unfold bind, addStatusChangeListener, modify, Operate. simpl. rewrite Hl0.
  pose proof (envStep_stays_down (set_trace (trace w ++ [Listening]) w)
                (l0, OnEvent StopEvent) l eq_refl Hl) as Hl'.
  unfold envStep in Hl'. simpl in Hl'. rewrite Hl0 in Hl'.
  apply waitLoop_stays_down; [|exact Hl'].
  unfold deliver. simpl. rewrite Hl0. by destruct (fsmStep p _).
Qed.

Lemma stopAndWait_quiet name w :
  quiet (sched w) -> quiet (sched (finalWorld (stopAndWait name w))).
Proof.
  intros Hq. unfold stopAndWait.
  destruct (procMap w !! name) as [l0|]; [|done].
  destruct (heap w !! l0) as [p|] eqn:Hl0; [|done].
  destruct (IsRunning p); simpl; [|done].
  unfold bind, addStatusChangeListener, modify, Operate. simpl. rewrite Hl0.
  apply waitLoop_quiet.
  unfold deliver. simpl. rewrite Hl0. by destruct (fsmStep p _).
Qed.

Lemma ownName_background w w' :
  registry w' = registry w -> background w' = background w -> ownName w -> ownName w'.
Proof.
  intros [= _ _ Hpr] [= Hh _] Ho k l Hk. rewrite Hpr in Hk.
  specialize (Ho k l Hk). simpl in *.
  rewrite <- list_lookup_fmap in Ho. rewrite <- list_lookup_fmap. by rewrite Hh.
Qed.

Lemma closeLoop_stops ps w r w' :
  quiet (sched w) -> ownName w ->
  (forall l, l ∈ ps -> exists k, procMap w !! k = Some l) ->
  closeLoop ps w = Done r w' ->
  registry w' = registry w /\
  forall l, (l ∈ ps \/ stoppedAt (heap w) l) -> stoppedAt (heap w') l.
Proof.
  revert w. induction ps as [|l0 ps IH]; intros w Hq Ho Hps; simpl.
  - intros [= <- <-]. split; [reflexivity|]. intros l [Hl|Hl]; [inversion Hl|exact Hl].
  - destruct (Hps l0) as [k Hk]; [by left|].
    destruct (ownName_lookup w k l0 Ho Hk) as (p & Hp & Hn).
    unfold bind at 1, deref. simpl. rewrite Hp. simpl. rewrite Hn.
    unfold bind at 1.
    pose proof (stopAndWait_registry k w) as Hreg.
    pose proof (stopAndWait_background k w) as Hbg.
    pose proof (stopAndWait_stays_down k w) as Hdown.
    pose proof (stopAndWait_quiet k w Hq) as Hq'.
    destruct (stopAndWait k w) as [e wm| |] eqn:Hs; [|discriminate..].
    simpl in Hreg, Hbg, Hdown, Hq'.
    destruct (stopAndWait_done _ _ _ _ _ _ Hk Hp Hs) as (_ & _ & Hl0).
    apply stoppedAt_lookup in Hl0.
    intros Hc. apply IH in Hc as [Hreg' Hall].
    + split; [by rewrite Hreg'|]. intros l [Hl|Hl].
      * apply elem_of_cons in Hl as [->|Hl]; apply Hall; [by right|by left].
      * apply Hall. right. by apply Hdown.
    + exact Hq'.
    + by apply (ownName_background w).
    + intros l Hl. destruct (Hps l) as [k' Hk']; [by right|].
      exists k'. injection Hreg as _ _ ->. exact Hk'.
Qed.

(** X16: when [Close] returns, in an environment that revives nothing
    (nobody starts a program, no retry timer fires), every registered
    controller is stopped; the registry is as it was. *)
Theorem Close_stops_all w w' :
  quiet (sched w) -> ownName w ->
  Close w = Done tt w' ->
  registry w' = registry w /\ allStopped w'.
Proof.
  intros Hq Ho. unfold Close, bind, gets. intros Hc.
  apply closeLoop_stops in Hc as [Hreg Hall]; [|exact Hq|exact Ho|].
  - split; [exact Hreg|]. intros k l Hk. simpl. apply Hall. left.
    injection Hreg as _ _ Hpr. rewrite Hpr in Hk.
    apply list_elem_of_fmap. exists (k, l). split; [reflexivity|].
    by apply elem_of_map_to_list.
  - intros l Hl. apply list_elem_of_fmap in Hl as ([k l'] & -> & Hl).
    exists k. by apply elem_of_map_to_list.
Qed.

Lemma closeLoop_idle ps w :
  (forall l, l ∈ ps -> stoppedAt (heap w) l) ->
  allStopped w ->
  closeLoop ps w = Done tt w.
Proof.
  intros Hps Hall. induction ps as [|l0 ps IH]; simpl; [reflexivity|].
  destruct (proj1 (stoppedAt_lookup _ _) (Hps l0 ltac:(by left))) as (p & Hp & Hr).
  unfold bind at 1, deref. simpl. rewrite Hp. simpl.
  unfold bind at 1.
  assert (Hs : exists e, stopAndWait (Name (program p)) w = Done e w).
  { unfold stopAndWait. destruct (procMap w !! Name (program p)) as [l1|] eqn:Hl1; [|eauto].
    destruct (proj1 (stoppedAt_lookup _ _) (Hall _ _ Hl1)) as (p1 & Hp1 & Hr1).
    rewrite Hp1, Hr1. simpl. eauto. }
  destruct Hs as [e ->]. apply IH. intros l Hl. apply Hps. by right.
Qed.

(** X17: with no registered controller running, [Close] returns at once
    and leaves no trace: no controller is given an event, nothing is
    broadcast. *)
Theorem Close_idle w :
  allStopped w ->
  Close w = Done tt w.
Proof.
  intros Hall. unfold Close, bind, gets. apply closeLoop_idle; [|exact Hall].
  intros l Hl. apply list_elem_of_fmap in Hl as ([k l'] & -> & Hl).
  apply elem_of_map_to_list in Hl. by apply (Hall k).
Qed.

(** ** Signals *)

(** X23: the goroutine of [catchExitSignal] does nothing for SIGHUP; the
    first other signal makes it call [Close] once, and no signal after
    that one is looked at; as long as only SIGHUP arrives it keeps
    waiting, and the world is as it was. *)
Theorem catchExitSignal_first_signal hups s rest w :
  Forall (fun x => x = SIGHUP) hups -> s <> SIGHUP ->
  catchExitSignal (hups ++ s :: rest) w = Close w /\
  catchExitSignal hups w = Blocked w.
Proof.
  intros Hh Hs. induction Hh as [|x hups -> _ IH]; simpl.
  - split; [|reflexivity]. by destruct s.
  - exact IH.
Qed.

(** ** The listings *)

(** X24: on a registry whose three key sets agree, [programs] and [procs]
    list, name by name in the order of the name sequence, the stored spec
    and the registered controller: no zero program, no nil pointer. *)
Theorem listings_complete w :
  sameKeys w ->
  Forall2 (fun name pg => pgMap w !! name = Some pg) (names w) (programs w) /\
  Forall2 (fun name proc => procMap w !! name = proc /\ is_Some proc) (names w) (procs w).
Proof.
  intros Hs. pose proof (sameKeys_names w Hs) as Hk. destruct Hs as [_ Hd].
  unfold programs, procs. split; apply Forall2_fmap_r, Forall_Forall2_diag, Forall_forall;
    intros k Hin; simpl; apply Hk in Hin.
  - destruct Hin as [pg ->]. reflexivity.
  - split; [reflexivity|]. apply elem_of_dom. rewrite <- Hd. by apply elem_of_dom.
Qed.

End Closing.

Section RoundTrip.

Context {Data : Type}.
Variable emptyData : Data.
Variable yamlUnmarshal : Data -> string + list Program.
Variable yamlMarshal : list Program -> string + Data.

Implicit Types (w : World (Data := Data)).

(** X10: what [saveDB] writes, [loadDB] reads back without changing
    anything: on a registry that satisfies its invariant and whose names
    are distinct, with a codec that parses what it printed, [saveDB]
    followed by [loadDB] returns [nil] and only the file has changed. *)
Theorem saveDB_loadDB_round_trip w data :
  mu w = false -> sameKeys w -> wellKeyed w -> NoDup (names w) ->
  writable (disk w) = true ->
  yamlMarshal (programs w) = inr data ->
  yamlUnmarshal data = inr (programs w) ->
  bind (saveDB yamlMarshal) (fun _ => loadDB emptyData yamlUnmarshal) w =
    Done None (set_disk (mkDisk (Some data) true) w).
Proof.
  intros Hmu Hs Hw Hnd Hwr Hm Hu. unfold bind.
  rewrite saveDB_unlocked by exact Hmu. rewrite Hm, Hwr.
  apply loadDB_same_config; try done.
Qed.

End RoundTrip.

(** * The handlers *)

Section Handlers.

Context {Data : Type}.
Variable yamlMarshal : list Program -> string + Data.
Variable Atoi : string -> string + Z.
Variable Quote : string -> string.

Implicit Types (w : World (Data := Data)) (form : string -> string).

(** What [saveDB] can change is the file. *)
Lemma saveDB_leaves w :
  set_disk (disk w) (finalWorld (saveDB yamlMarshal w)) = w.
Proof.
  destruct (mu w) eqn:Hmu.
  - rewrite saveDB_locked by exact Hmu. by destruct w.
  - rewrite saveDB_unlocked by exact Hmu.
    destruct (yamlMarshal (programs w)); [by destruct w|].
    destruct (writable (disk w)); by destruct w.
Qed.

Lemma saveDB_leaves_registry w :
  pgMap (finalWorld (saveDB yamlMarshal w)) = pgMap w /\
  procMap (finalWorld (saveDB yamlMarshal w)) = procMap w /\
  heap (finalWorld (saveDB yamlMarshal w)) = heap w /\
  names (finalWorld (saveDB yamlMarshal w)) = names w.
Proof.
  pose proof (saveDB_leaves w) as H.
  rewrite <- H at 2 4 6 8. done.
Qed.

Lemma saveDB_returns w :
  mu w = false -> exists r w', saveDB yamlMarshal w = Done r w'.
Proof.
  intros Hmu. rewrite saveDB_unlocked by exact Hmu.
  destruct (yamlMarshal (programs w)); [by eauto|]. destruct (writable (disk w)); by eauto.
Qed.

(** [hAddProgram], once the form is read: the program it is about. *)
Lemma hAddProgram_eq form w n :
  Atoi (form "retries") = inr n ->
  let pg := mkProgram (form "name") (form "command")
              (if decide (form "dir" = "") then "/" else form "dir")
              (bool_decide (form "autostart" = "on")) n in
  hAddProgram yamlMarshal Atoi Quote form w =
    match Check pg with
    | Some err => Done (HttpError err StatusBadRequest) w
    | None =>
        match pgMap w !! Name pg with
        | Some _ =>
            Done (Body {[ "status" := JNum 1;
                          "error" := JStr ("Program " +:+ Quote (Name pg) +:+ " already exists") ]}) w
        | None =>
            match addOrUpdateProgram pg w with
            | Done (Some err) w1 => Done (Body {[ "status" := JNum 1; "error" := JStr err ]}) w1
            | Done None w1 =>
                match saveDB yamlMarshal w1 with
                | Done _ w2 => Done (Body {[ "status" := JNum 0 ]}) w2
                | Blocked w2 => Blocked w2
                | Panicked w2 => Panicked w2
                end
            | Blocked w1 => Blocked w1
            | Panicked w1 => Panicked w1
            end
        end
    end.
Proof.
  intros Hn. unfold hAddProgram. rewrite Hn. simpl.
  destruct (decide (form "dir" = "")) as [Hd|Hd]; simpl;
    (destruct (Check _); [reflexivity|]);
    unfold bind at 1, gets; simpl;
    (destruct (pgMap w !! form "name"); [reflexivity|]);
    unfold bind at 1;
    (destruct (addOrUpdateProgram _ w) as [[e|] w1| |]; try reflexivity);
    unfold bind; destruct (saveDB yamlMarshal w1); reflexivity.
Qed.

(** X19: the answer of [hAddProgram] tells what happened to the registry:
    with the answer "status 0" the program of the form, which passes
    [Check] and whose name was free, is stored and listed last; with any
    other answer nothing at all has changed. *)
Theorem hAddProgram_answer form w resp w' :
  hAddProgram yamlMarshal Atoi Quote form w = Done resp w' ->
  (resp = Body {[ "status" := JNum 0 ]} /\
   exists n, Atoi (form "retries") = inr n /\
     let pg := mkProgram (form "name") (form "command")
                 (if decide (form "dir" = "") then "/" else form "dir")
                 (bool_decide (form "autostart" = "on")) n in
     Check pg = None /\ pgMap w !! form "name" = None /\
     pgMap w' !! form "name" = Some pg /\ names w' = names w ++ [form "name"]) \/
  (resp <> Body {[ "status" := JNum 0 ]} /\ w' = w).
Proof.
  destruct (Atoi (form "retries")) as [err|n] eqn:Hn.
  - unfold hAddProgram. rewrite Hn. intros [= <- <-]. right. split; [discriminate|reflexivity].
  - rewrite (hAddProgram_eq form w n Hn). simpl.
    destruct (Check _) as [err|] eqn:Hc.
    { intros [= <- <-]. right. split; [discriminate|reflexivity]. }
    destruct (pgMap w !! form "name") as [x|] eqn:Hx.
    { intros [= <- <-]. right. split; [|reflexivity].
      discriminate. }
    destruct (addOrUpdateProgram _ w) as [e w1| |] eqn:Ha; [|discriminate..].
    apply addOrUpdateProgram_cases in Ha
      as [(-> & -> & Hr)|[(_ & _ & origPg & l & p & Ho & _)|(-> & _ & _ & ->)]].
    + rewrite Hc in *. specialize (Hr eq_refl). simpl in Hr. congruence.
    + simpl in Ho. congruence.
    + match goal with |- context [saveDB yamlMarshal ?w1] =>
        pose proof (saveDB_leaves w1) as Hsave end.
      simpl in *.
      destruct (saveDB yamlMarshal _) as [r w2| |]; [|discriminate..].
      intros [= <- <-]. left. split; [reflexivity|]. exists n.
      split; [reflexivity|]. split; [exact Hc|]. split; [reflexivity|].
      apply (f_equal (fun v => (pgMap v, names v))) in Hsave.
      simpl in Hsave. injection Hsave as -> ->.
      split; [apply lookup_insert_eq|reflexivity].
Qed.

(** X20: [hAddProgram] drops the error of [saveDB]: with a file that
    cannot be written (or a list that cannot be serialized), a valid new
    program is registered and the answer is "status 0" all the same,
    while the file is as it was. *)
Theorem hAddProgram_unsaved form w n :
  Atoi (form "retries") = inr n ->
  let pg := mkProgram (form "name") (form "command")
              (if decide (form "dir" = "") then "/" else form "dir")
              (bool_decide (form "autostart" = "on")) n in
  Check pg = None -> pgMap w !! form "name" = None ->
  mu w = false -> writable (disk w) = false ->
  exists w',
    hAddProgram yamlMarshal Atoi Quote form w = Done (Body {[ "status" := JNum 0 ]}) w' /\
    pgMap w' !! form "name" = Some pg /\
    disk w' = disk w.
Proof.
  intros Hn pg Hc Hfree Hmu Hwr. rewrite (hAddProgram_eq form w n Hn). fold pg.
  rewrite Hc. change (Name pg) with (form "name"). rewrite Hfree.
  unfold addOrUpdateProgram. rewrite Hc. unfold bind at 1, gets at 1.
  change (Name pg) with (form "name"). rewrite Hfree.
  unfold bind, modify, newProcess, broadcastEvent, ret. simpl.
  rewrite saveDB_unlocked by exact Hmu. simpl.
  destruct (yamlMarshal _); [|rewrite Hwr]; eexists; (split; [reflexivity|]); simpl;
    (split; [apply lookup_insert_eq|reflexivity]).
Qed.

(** X21: [hAddProgram] never touches what is registered: whatever the form
    and the outcome, every stored spec, its controller and the state of
    every controller are as they were. *)
Theorem hAddProgram_keeps_existing form w :
  (forall k x, pgMap w !! k = Some x ->
     pgMap (finalWorld (hAddProgram yamlMarshal Atoi Quote form w)) !! k = Some x /\
     procMap (finalWorld (hAddProgram yamlMarshal Atoi Quote form w)) !! k = procMap w !! k) /\
  heap w `prefix_of` heap (finalWorld (hAddProgram yamlMarshal Atoi Quote form w)).
Proof.
  destruct (Atoi (form "retries")) as [err|n] eqn:Hn.
  - unfold hAddProgram. rewrite Hn. simpl. done.
  - rewrite (hAddProgram_eq form w n Hn). simpl.
    destruct (Check _) as [err|] eqn:Hc; [done|].
    destruct (pgMap w !! form "name") as [x|] eqn:Hx; [done|].
    destruct (addOrUpdateProgram _ w) as [e w1| |] eqn:Ha.
    + apply addOrUpdateProgram_cases in Ha
        as [(-> & -> & Hr)|[(_ & _ & origPg & l & p & Ho & _)|(-> & _ & _ & ->)]].
      * rewrite Hc in *. specialize (Hr eq_refl). simpl in Hr. congruence.
      * simpl in Ho. congruence.
      * match goal with |- context [saveDB yamlMarshal ?w1] =>
          pose proof (saveDB_leaves w1) as Hsave;
          assert (Hfin : finalWorld
                    match saveDB yamlMarshal w1 with
                    | Done _ w2 => Done (Body {[ "status" := JNum 0 ]}) w2
                    | Blocked w2 => Blocked w2
                    | Panicked w2 => Panicked w2
                    end = finalWorld (saveDB yamlMarshal w1))
            by (by destruct (saveDB yamlMarshal w1))
        end.
        rewrite Hfin. clear Hfin Hsave.
        match goal with |- context [saveDB yamlMarshal ?w1] =>
          destruct (saveDB_leaves_registry w1) as (-> & -> & -> & _) end.
        simpl. split.
        -- intros k y Hk. assert (k <> form "name") by congruence.
           by rewrite !lookup_insert_ne.
        -- by apply prefix_app_r.
    + exfalso. revert Ha. unfold addOrUpdateProgram. rewrite Hc.
      unfold bind at 1, gets at 1. simpl. rewrite Hx. discriminate.
    + exfalso. revert Ha. unfold addOrUpdateProgram. rewrite Hc.
      unfold bind at 1, gets at 1. simpl. rewrite Hx. discriminate.
Qed.

(** X22: [hStartProgram] and [hStopProgram] answer "status 1" and do
    nothing for a name that has no controller; for a registered name they
    give the controller the one event, without waiting, and answer
    "status 0"; the registry is never changed. *)
Theorem start_stop_handlers w name :
  (procMap w !! name = None ->
     hStartProgram Quote name w =
       Done (Body {[ "status" := JNum 1;
                     "error" := JStr ("Process " +:+ Quote name +:+ " not exists") ]}) w /\
     hStopProgram Quote name w =
       Done (Body {[ "status" := JNum 1;
                     "error" := JStr ("Process " +:+ Quote name +:+ " not exists") ]}) w) /\
  (forall l, procMap w !! name = Some l -> is_Some (heap w !! l) ->
     exists w1 w2,
       hStartProgram Quote name w = Done (Body {[ "status" := JNum 0; "name" := JStr name ]}) w1 /\
       hStopProgram Quote name w = Done (Body {[ "status" := JNum 0; "name" := JStr name ]}) w2 /\
       operated w1 = operated w ++ [(l, StartEvent)] /\
       operated w2 = operated w ++ [(l, StopEvent)] /\
       registry w1 = registry w /\ registry w2 = registry w /\
       sched w1 = sched w /\ sched w2 = sched w).
Proof.
  split.
  - intros Hn. unfold hStartProgram, hStopProgram, bind, gets. by rewrite Hn.
  - intros l Hl [p Hp]. unfold hStartProgram, hStopProgram, bind, gets, Operate, ret.
    rewrite Hl, Hp. eexists. eexists. split; [reflexivity|]. split; [reflexivity|].
    unfold operated, deliver. simpl. rewrite Hp.
    destruct (fsmStep p (OnEvent StartEvent)), (fsmStep p (OnEvent StopEvent)); simpl;
      rewrite ?omap_app; simpl; rewrite ?app_nil_r; done.
Qed.

End Handlers.

(** * The model at work *)

Lemma stopAndWait_no_such_program_witness :
  stopAndWait "ghost" (worldA Running None []) =
  Done (Some "No such program") (worldA Running None []).
Proof. apply stopAndWait_no_such_program. reflexivity. Defined.

(** A stopped controller costs nothing; a running one is stopped by the
    time [stopAndWait] returns. *)
Lemma stopAndWait_returns_stopped_witness :
  stopAndWait "A" (worldA Stopped None []) = Done None (worldA Stopped None []) /\
  exists p',
    heap (finalWorld (stopAndWait "A" (worldA Running None [[(0, Terminated)]]))) !! 0 = Some p' /\
    IsRunning p' = false.
Proof.
  split.
  - apply (stopAndWait_returns_stopped (worldA Stopped None []) "A" 0 (mkProcess pgA Stopped 0));
      reflexivity.
  - destruct (stopAndWait_returns_stopped (worldA Running None [[(0, Terminated)]]) "A" 0
                (mkProcess pgA Running 0) eq_refl eq_refl) as [_ H].
    destruct (H None (finalWorld (stopAndWait "A" (worldA Running None [[(0, Terminated)]]))))
      as (_ & _ & Hp); [by vm_compute|exact Hp].
Defined.

Lemma loadDB_duplicate_untouched_witness :
  exists name,
    load (worldA Running (Some [pgA; pgB; pgA']) []) =
    Done (Some ("Duplicated program name: " +:+ name)) (worldA Running (Some [pgA; pgB; pgA']) []).
Proof.
  apply (loadDB_duplicate_untouched [] schemaUnmarshal
           (worldA Running (Some [pgA; pgB; pgA']) []) [pgA; pgB; pgA'] 0 2 pgA pgA');
    try reflexivity. lia.
Defined.

Lemma loadDB_idempotent_witness :
  load (worldA Running (Some [pgA]) []) = Done None (worldA Running (Some [pgA]) []).
Proof.
  destruct (loadDB_idempotent [] schemaUnmarshal (worldA Running (Some [pgA]) []))
    as (r & Hload & Hr).
  - reflexivity.
  - apply (bool_decide_unpack _). by vm_compute.
  - apply (bool_decide_unpack _). by vm_compute.
  - reflexivity.
  - rewrite <- (Hr (NoDup_singleton "A")). exact Hload.
Defined.

Lemma saveDB_frame_witness :
  registry (finalWorld (save (worldA Running None []))) = registry (worldA Running None []) /\
  content (disk (finalWorld (save (worldA Running None [])))) = Some [pgA].
Proof.
  destruct (saveDB_frame schemaMarshal (worldA Running None [])) as (Hreg & _ & Hfile).
  split; [exact Hreg|].
  destruct (Hfile (finalWorld (save (worldA Running None [])))) as (data & Hm & Hc);
    [reflexivity|].
  rewrite Hc. injection Hm as <-. reflexivity.
Defined.

(** C4, as stated, fails: a spec whose name is registered and whose
    fields differ from the stored spec, but which [Check] rejects, is
    answered with the error of [Check]; nothing is broadcast and no
    goroutine is started. *)
Lemma update_rejected_counterexample :
  pgMap (worldA Running None []) !! Name pgInvalidA = Some pgA /\
  pgA <> pgInvalidA /\
  addOrUpdateProgram pgInvalidA (worldA Running None []) =
    Done (Some "Program command empty") (worldA Running None []).
Proof. split; [reflexivity|]. split; [discriminate|reflexivity]. Qed.

(** A rejected change, and the update of a running program: the old
    controller is stopped, the new one is registered and Starting. *)
Lemma addOrUpdateProgram_update_witness :
  addOrUpdateProgram pgInvalidA (worldA Running None []) =
    Done (Some "Program command empty") (worldA Running None []) /\
  exists w1 w2,
    addOrUpdateProgram pgA' (worldA Running None [[(0, Terminated)]]) = Done None w1 /\
    eventB w1 = ["A update"] /\
    runGoroutine w1 = Done tt w2 /\
    procMap w2 !! "A" = Some 1 /\ pgMap w2 !! "A" = Some pgA' /\
    heap w2 = [mkProcess pgA Stopped 0; mkProcess pgA' Starting 0] /\
    operated w2 = [(0, StopEvent); (1, StartEvent)].
Proof.
  split.
  - apply (proj1 (addOrUpdateProgram_update (worldA Running None [])
                    pgInvalidA pgA 0 (mkProcess pgA Running 0)
                    eq_refl ltac:(discriminate) eq_refl eq_refl)).
    reflexivity.
  - destruct (proj2 (addOrUpdateProgram_update (worldA Running None [[(0, Terminated)]])
                       pgA' pgA 0 (mkProcess pgA Running 0)
                       eq_refl ltac:(discriminate) eq_refl eq_refl) eq_refl)
      as [Hsync Hasync].
    destruct (Hasync
      (set_goroutines []
         (finalWorld (addOrUpdateProgram pgA' (worldA Running None [[(0, Terminated)]]))))
      (mkProcess pgA Running 0) eq_refl) as (Hruns & _ & _).
    destruct (Hruns None
      (finalWorld (stopAndWait "A"
         (set_goroutines []
            (finalWorld (addOrUpdateProgram pgA' (worldA Running None [[(0, Terminated)]])))))))
      as (w2 & Hupd & Hpr & Hpg & _ & Hheap & Hop & _); [by vm_compute|].
    eexists. exists w2.
    split; [exact Hsync|]. split; [reflexivity|]. split; [exact Hupd|].
    rewrite Hpr, Hpg, Hheap, Hop. repeat split; by vm_compute.
Defined.

(** C6, as stated, fails: with a file that cannot be read, [loadDB]
    returns [nil] and the registry, which held the program A, is
    empty. *)
Lemma load_unreadable_counterexample :
  content (disk (worldA Stopped None [])) = None /\
  names (worldA Stopped None []) = ["A"] /\
  exists w', load (worldA Stopped None []) = Done None w' /\
    names w' = [] /\ pgMap w' = ∅ /\ procMap w' = ∅ /\ eventB w' = ["A deleted"].
Proof.
  split; [reflexivity|]. split; [reflexivity|].
  eexists. split; [by vm_compute|]. by vm_compute.
Qed.

Lemma persistence_failures_witness :
  save (worldA Running None [] ) = Done None (worldA Running (Some [pgA]) []) /\
  (exists err, save readOnlyWorld = Done (Some err) readOnlyWorld) /\
  names (finalWorld (load (worldA Stopped None []))) = [] /\
  pgMap (finalWorld (load (worldA Stopped None []))) = ∅.
Proof.
  split; [reflexivity|]. split.
  - apply (proj1 (persistence_failures [] schemaUnmarshal schemaMarshal
                    readOnlyWorld eq_refl) [pgA]); reflexivity.
  - assert (Hw : wellKeyed (worldA Stopped None []))
      by (apply (bool_decide_unpack _); by vm_compute).
    destruct (proj2 (persistence_failures [] schemaUnmarshal schemaMarshal
                       (worldA Stopped None []) eq_refl) eq_refl eq_refl Hw
                None (finalWorld (load (worldA Stopped None []))))
      as (_ & Hn & Hp); [by vm_compute|].
    split; assumption.
Defined.

(** C1, where the code fails it: an entry that [Check] rejects and that
    is not registered leaves its name in the name sequence, with no spec
    and no controller behind it. *)
Theorem loadDB_orphan_name :
  Check pgBad <> None /\
  exists w',
    load (emptyWorld (Some [pgA; pgBad])) = Done None w' /\
    names w' = ["A"; "bad"] /\
    pgMap w' !! "bad" = None /\ procMap w' !! "bad" = None /\
    ~ sameKeys w'.
Proof.
  split; [discriminate|].
  eexists. split; [by vm_compute|]. split; [reflexivity|].
  split; [reflexivity|]. split; [reflexivity|].
  intros Hs. apply (bool_decide_pack _) in Hs. by vm_compute in Hs.
Qed.

(** C5, where the code fails it: the name sequence after [loadDB] holds
    the names of all the entries of the configuration, the rejected ones
    too. *)
Theorem loadDB_keeps_rejected_names :
  exists w',
    load (emptyWorld (Some [pgA; pgBad; pgB])) = Done None w' /\
    names w' = ["A"; "bad"; "B"] /\
    Name <$> filter (fun pg => Check pg = None) [pgA; pgBad; pgB] = ["A"; "B"].
Proof. eexists. split; [by vm_compute|]. split; reflexivity. Qed.

(** C9, where the code fails it: the goroutine of the update path puts
    the new spec and the new controller in the maps while the mutex is
    held by somebody else. *)
Theorem update_swap_ignores_mutex :
  exists w1 w2 w3,
    load (worldA Running (Some [pgA']) [[(0, Terminated)]]) = Done None w1 /\
    goroutines w1 = [mkTask 0 pgA' true] /\
    procMap w1 !! "A" = Some 0 /\ pgMap w1 !! "A" = Some pgA /\
    Lock w1 = Done tt w2 /\
    runGoroutine w2 = Done tt w3 /\
    mu w3 = true /\
    procMap w3 !! "A" = Some 1 /\ pgMap w3 !! "A" = Some pgA'.
Proof.
  eexists. eexists. eexists.
  split; [by vm_compute|]. split; [reflexivity|]. split; [reflexivity|].
  split; [reflexivity|]. split; [reflexivity|]. split; [by vm_compute|].
  split; [reflexivity|]. split; reflexivity.
Qed.

(** ** The scenarios of the specification *)

(** "Update A's command while Running": the events, in order. *)
Example scenario_update :
  eventB (envStep
            (finalWorld (bind (addOrUpdateProgram pgA') (fun _ => runGoroutine)
                           (worldA Running None [[(0, Terminated)]])))
            (1, SpawnSucceeded)) =
  ["A update"; "A state: Running -> Stopping"; "A state: Stopping -> Stopped";
   "A state: Stopped -> Starting"; "A state: Starting -> Running"].
Proof. reflexivity. Qed.

(** "Remove B from desired list": the events, and the registry
    without B. *)
Example scenario_delete :
  exists w', load (worldAB (Some [pgA]) [[(1, Terminated)]]) = Done None w' /\
    eventB w' = ["B state: Running -> Stopping"; "B state: Stopping -> Stopped"; "B deleted"] /\
    names w' = ["A"] /\ pgMap w' !! "B" = None /\ procMap w' !! "B" = None /\
    pgMap w' !! "A" = Some pgA.
Proof. eexists. split; [by vm_compute|]. by vm_compute. Qed.

(** ** More of the model at work *)

Lemma addOrUpdateProgram_appends_witness :
  exists w',
    addOrUpdateProgram pgB (worldA Stopped None []) = Done None w' /\
    programs w' = [pgA; pgB] /\ procs w' = [Some 0; Some 1] /\
    eventB w' = ["B added"].
Proof.
  destruct (addOrUpdateProgram_appends (worldA Stopped None []) pgB)
    as (w' & Hadd & Hpgs & Hprocs & _ & Hev & _).
  - reflexivity.
  - reflexivity.
  - apply (bool_decide_unpack _). by vm_compute.
  - exists w'. split; [exact Hadd|]. split; [exact Hpgs|]. split; [exact Hprocs|exact Hev].
Defined.

Lemma addOrUpdateProgram_keeps_invariant_witness :
  sameKeys (finalWorld (addOrUpdateProgram pgB (worldA Stopped None []))) /\
  wellKeyed (finalWorld (addOrUpdateProgram pgB (worldA Stopped None []))).
Proof.
  apply (addOrUpdateProgram_keeps_invariant (worldA Stopped None []) pgB None).
  - apply (bool_decide_unpack _). by vm_compute.
  - apply (bool_decide_unpack _). by vm_compute.
  - reflexivity.
Defined.

Lemma addOrUpdateProgram_frame_witness :
  pgMap (finalWorld (addOrUpdateProgram pgA' (worldA Running None []))) !! "A" = Some pgA /\
  operated (finalWorld (addOrUpdateProgram pgA' (worldA Running None []))) = [].
Proof.
  destruct (addOrUpdateProgram_frame (worldA Running None []) pgA' None
              (finalWorld (addOrUpdateProgram pgA' (worldA Running None []))) eq_refl)
    as (Hpg & _ & _ & Hop & _).
  split; [by apply Hpg|exact Hop].
Defined.

Lemma readConfigFromDB_first_repeat_witness :
  readConfigFromDB [] schemaUnmarshal (emptyWorld (Some [pgA; pgB; pgA'; pgB])) =
  Done (inl "Duplicated program name: A") (emptyWorld (Some [pgA; pgB; pgA'; pgB])).
Proof.
  apply (readConfigFromDB_first_repeat [] schemaUnmarshal
           (emptyWorld (Some [pgA; pgB; pgA'; pgB])) [pgA; pgB] pgA' [pgB]).
  - reflexivity.
  - apply (bool_decide_unpack _). by vm_compute.
  - apply (bool_decide_unpack _). by vm_compute.
Defined.

Lemma loadDB_parse_error_witness :
  loadDB [] garbledUnmarshal (worldA Running (Some [pgA]) []) =
  Done (Some "yaml: unmarshal errors") (worldA Running (Some [pgA]) []).
Proof. apply loadDB_parse_error; reflexivity. Defined.

Lemma loadDB_removes_absent_witness :
  pgMap (finalWorld (load (worldAB (Some [pgA]) [[(1, Terminated)]]))) !! "B" = None /\
  procMap (finalWorld (load (worldAB (Some [pgA]) [[(1, Terminated)]]))) !! "B" = None.
Proof.
  apply (loadDB_removes_absent [] schemaUnmarshal
           (worldAB (Some [pgA]) [[(1, Terminated)]]) [pgA] None).
  - reflexivity.
  - apply (bool_decide_unpack _). by vm_compute.
  - apply (bool_decide_unpack _). by vm_compute.
  - reflexivity.
  - apply (bool_decide_unpack _). by vm_compute.
  - by vm_compute.
  - apply (bool_decide_unpack _). by vm_compute.
Defined.

Lemma loadDB_registers_new_witness :
  pgMap (finalWorld (load (worldA Running (Some [pgA; pgB]) []))) !! "B" = Some pgB /\
  exists l p,
    procMap (finalWorld (load (worldA Running (Some [pgA; pgB]) []))) !! "B" = Some l /\
    heap (finalWorld (load (worldA Running (Some [pgA; pgB]) []))) !! l = Some p /\
    program p = pgB.
Proof.
  apply (loadDB_registers_new [] schemaUnmarshal (worldA Running (Some [pgA; pgB]) [])
           [pgA; pgB] None _ pgB).
  - reflexivity.
  - apply (bool_decide_unpack _). by vm_compute.
  - apply (bool_decide_unpack _). by vm_compute.
  - reflexivity.
  - apply (bool_decide_unpack _). by vm_compute.
  - by vm_compute.
  - apply (bool_decide_unpack _). by vm_compute.
  - reflexivity.
  - reflexivity.
Defined.

Lemma loadDB_restores_invariant_witness :
  sameKeys (finalWorld (load (worldAB (Some [pgB; pgInvalidA]) []))) /\
  wellKeyed (finalWorld (load (worldAB (Some [pgB; pgInvalidA]) []))).
Proof.
  apply (loadDB_restores_invariant [] schemaUnmarshal (worldAB (Some [pgB; pgInvalidA]) [])
           [pgB; pgInvalidA] None).
  - reflexivity.
  - apply (bool_decide_unpack _). by vm_compute.
  - apply (bool_decide_unpack _). by vm_compute.
  - reflexivity.
  - apply (bool_decide_unpack _). by vm_compute.
  - apply Forall_forall. apply (bool_decide_unpack _). by vm_compute.
  - by vm_compute.
Defined.

Lemma loadDB_lists_every_name_witness :
  names (finalWorld (load (emptyWorld (Some [pgA; pgBad; pgB])))) = ["A"; "bad"; "B"].
Proof.
  apply (loadDB_lists_every_name [] schemaUnmarshal (emptyWorld (Some [pgA; pgBad; pgB]))
           [pgA; pgBad; pgB] None).
  - reflexivity.
  - reflexivity.
  - apply (bool_decide_unpack _). by vm_compute.
  - by vm_compute.
Defined.

Lemma saveDB_loadDB_round_trip_witness :
  bind save (fun _ => load) (worldA Running None []) =
  Done None (worldA Running (Some [pgA]) []).
Proof.
  apply (saveDB_loadDB_round_trip [] schemaUnmarshal schemaMarshal
           (worldA Running None []) [pgA]).
  - reflexivity.
  - apply (bool_decide_unpack _). by vm_compute.
  - apply (bool_decide_unpack _). by vm_compute.
  - apply (bool_decide_unpack _). by vm_compute.
  - reflexivity.
  - reflexivity.
  - reflexivity.
Defined.

Lemma Close_stops_all_witness :
  registry (finalWorld (Close (worldAB None [[]; []]))) = registry (worldAB None [[]; []]) /\
  allStopped (finalWorld (Close (worldAB None [[]; []]))).
Proof.
  apply (Close_stops_all (worldAB None [[]; []])).
  - repeat constructor.
  - apply (bool_decide_unpack _). by vm_compute.
  - by vm_compute.
Defined.

Lemma Close_idle_witness :
  Close (worldA Stopped None []) = Done tt (worldA Stopped None []).
Proof. apply Close_idle. apply (bool_decide_unpack _). by vm_compute. Defined.

Lemma hAddProgram_answer_witness :
  pgMap (finalWorld (hAddProgram schemaMarshal decimalAtoi quoted formB
                       (worldA Running None []))) !! "B" =
  Some (mkProgram "B" "tail -f log" "/" true 3).
Proof.
  destruct (hAddProgram_answer schemaMarshal decimalAtoi quoted formB
              (worldA Running None []) (Body {[ "status" := JNum 0 ]})
              (finalWorld (hAddProgram schemaMarshal decimalAtoi quoted formB
                             (worldA Running None []))))
    as [(_ & n & Hn & _ & _ & Hst & _)|[Hne _]].
  - by vm_compute.
  - injection Hn as <-. exact Hst.
  - exfalso. by apply Hne.
Defined.

Lemma hAddProgram_unsaved_witness :
  exists w',
    hAddProgram schemaMarshal decimalAtoi quoted formB readOnlyWorld =
      Done (Body {[ "status" := JNum 0 ]}) w' /\
    pgMap w' !! "B" = Some (mkProgram "B" "tail -f log" "/" true 3) /\
    disk w' = mkDisk None false.
Proof.
  apply (hAddProgram_unsaved schemaMarshal decimalAtoi quoted formB readOnlyWorld 3);
    reflexivity.
Defined.

Lemma updateBody_keeps_invariant_witness :
  pgMap (finalWorld (updateBody (mkTask 0 pgA' true) (worldA Running None [[]]))) !! "A" =
    Some pgA' /\
  sameKeys (finalWorld (updateBody (mkTask 0 pgA' true) (worldA Running None [[]]))) /\
  wellKeyed (finalWorld (updateBody (mkTask 0 pgA' true) (worldA Running None [[]]))).
Proof.
  destruct (updateBody_keeps_invariant (mkTask 0 pgA' true) (worldA Running None [[]])
              (finalWorld (updateBody (mkTask 0 pgA' true) (worldA Running None [[]]))))
    as (Hst & _ & Hinv); [by vm_compute|].
  split; [exact Hst|]. apply Hinv; apply (bool_decide_unpack _); by vm_compute.
Defined.

Lemma reconcile_converges_witness :
  programs (finalWorld (bind load (fun _ => runGoroutines)
                          (worldAB (Some [pgB; pgA']) [[]]))) = [pgB; pgA'].
Proof.
  apply (reconcile_converges [] schemaUnmarshal (worldAB (Some [pgB; pgA']) [[]]) [pgB; pgA']).
  - reflexivity.
  - apply (bool_decide_unpack _). by vm_compute.
  - apply (bool_decide_unpack _). by vm_compute.
  - reflexivity.
  - reflexivity.
  - apply (bool_decide_unpack _). by vm_compute.
  - apply Forall_forall. apply (bool_decide_unpack _). by vm_compute.
  - by vm_compute.
Defined.

Lemma newSupervisorHandler_registers_witness :
  exists w',
    newSupervisorHandler [] schemaUnmarshal (mkDisk (Some [pgA; pgB]) true) [] = Done None w' /\
    programs w' = [pgA; pgB] /\ procs w' = [Some 0; Some 1] /\
    eventB w' = ["A added"; "B added"].
Proof.
  destruct (newSupervisorHandler_registers [] schemaUnmarshal
              (mkDisk (Some [pgA; pgB]) true) [] [pgA; pgB])
    as (w' & Hnew & Hpgs & Hprocs & _ & Hev & _).
  - reflexivity.
  - apply (bool_decide_unpack _). by vm_compute.
  - apply Forall_forall. apply (bool_decide_unpack _). by vm_compute.
  - exists w'. split; [exact Hnew|]. split; [exact Hpgs|]. split; [exact Hprocs|exact Hev].
Defined.

Lemma catchExitSignal_first_signal_witness :
  catchExitSignal [SIGHUP; SIGHUP; SIGTERM; SIGINT] (worldAB None [[]; []]) =
    Close (worldAB None [[]; []]) /\
  catchExitSignal [SIGHUP; SIGHUP] (worldAB None [[]; []]) = Blocked (worldAB None [[]; []]).
Proof.
  apply (catchExitSignal_first_signal [SIGHUP; SIGHUP] SIGTERM [SIGINT]).
  - repeat constructor.
  - discriminate.
Defined.

Lemma listings_complete_witness :
  Forall2 (fun name pg => pgMap (worldAB None []) !! name = Some pg)
    (names (worldAB None [])) (programs (worldAB None [])) /\
  Forall2 (fun name proc => procMap (worldAB None []) !! name = proc /\ is_Some proc)
    (names (worldAB None [])) (procs (worldAB None [])).
Proof.
  apply listings_complete. apply (bool_decide_unpack _). by vm_compute.
Defined.

Lemma stopAndWait_running_returns_witness :
  exists w', stopAndWait "A" (worldA Running None [[(0, ExitedUnexpectedly)]]) = Done None w'.
Proof.
  apply (stopAndWait_running_returns (worldA Running None [[(0, ExitedUnexpectedly)]])
           "A" 0 (mkProcess pgA Running 0) [(0, ExitedUnexpectedly)] []);
    try reflexivity.
  repeat constructor. discriminate.
Defined.
